(** * The [zen] command of [bot/exts/utils/utils.py]

    A shallow embedding of the line-selection logic of [Utils.zen]
    (lines 91-159) and of the parts of Python it runs on:
    [str.lower], [str.split], [str.splitlines], list indexing,
    [int ** float], float comparison and [difflib.SequenceMatcher.ratio].

    Text is modelled on the Latin-1 range of Python's [str]: a character
    is a code point below 256, held in an [ascii]; on that range the
    definitions of [lower], [upper], [isspace] and the line boundaries are
    the interpreter's.  Floats are the kernel's binary64 numbers.  The one
    operation the interpreter leaves to the C library, [pow(x, 0.5)], is a
    parameter [c_pow] of the definitions; the examples on concrete lines
    take for it the correctly rounded [sqrt]. *)

From Stdlib Require Import ZArith NArith List String Ascii Bool Lia Floats.
Import ListNotations.

Local Open Scope Z_scope.

(** ** Python values *)

Module Py.

(** [len(s)] *)
Definition len (s : string) : Z := Z.of_nat (String.length s).

Definition ord (c : ascii) : N := N_of_ascii c.

(** [str.isspace] on one character: U+0009..U+000D, U+001C..U+0020,
    U+0085 and U+00A0. *)
Definition isspace (c : ascii) : bool :=
  let n := ord c in
  (((9 <=? n) && (n <=? 13)) || ((28 <=? n) && (n <=? 32))
   || (n =? 133) || (n =? 160))%N.

(** [str.lower] on one character: A..Z, and the Latin-1 capitals
    U+00C0..U+00DE except the multiplication sign U+00D7. *)
Definition lower_char (c : ascii) : ascii :=
  let n := ord c in
  if (((65 <=? n) && (n <=? 90))
      || ((192 <=? n) && (n <=? 222) && negb (n =? 215)))%N
  then ascii_of_N (n + 32) else c.

Fixpoint lower (s : string) : string :=
  match s with
  | EmptyString => EmptyString
  | String c s' => String (lower_char c) (lower s')
  end.

(** The code points of a string. *)
Fixpoint points (s : string) : list N :=
  match s with
  | EmptyString => []
  | String c s' => ord c :: points s'
  end.

(** [str.upper] on one character, as code points, since three capitals
    leave the range: a..z and U+00E0..U+00FE except the division sign
    U+00F7 move down by 32; the capital of U+00DF is the two letters SS,
    that of U+00B5 is U+039C and that of U+00FF is U+0178. *)
Definition upper_char (c : ascii) : list N :=
  let n := ord c in
  (if ((97 <=? n) && (n <=? 122))
      || ((224 <=? n) && (n <=? 254) && negb (n =? 247))
   then [n - 32]
   else if n =? 223 then [83; 83]
   else if n =? 181 then [924]
   else if n =? 255 then [376]
   else [n])%N.

Fixpoint upper (s : string) : list N :=
  match s with
  | EmptyString => []
  | String c s' => (upper_char c ++ upper s')%list
  end.

(** [str.split()] with no separator: the maximal runs of characters
    that are not whitespace, in order.  [word] is the run being read. *)
Fixpoint split_from (word : string) (s : string) : list string :=
  match s with
  | EmptyString =>
      match word with EmptyString => [] | _ => [word] end
  | String c s' =>
      if isspace c then
        match word with
        | EmptyString => split_from EmptyString s'
        | _ => word :: split_from EmptyString s'
        end
      else split_from (word ++ String c EmptyString)%string s'
  end.

Definition split (s : string) : list string := split_from EmptyString s.

(** Line boundaries of [str.splitlines] below U+0100. *)
Definition is_linebreak (c : ascii) : bool :=
  let n := ord c in
  (((10 <=? n) && (n <=? 13)) || ((28 <=? n) && (n <=? 30)) || (n =? 133))%N.

(** [str.splitlines()]: a carriage return followed by a line feed is one
    boundary, and a trailing boundary opens no empty last line. *)
Fixpoint splitlines_from (line : string) (s : string) : list string :=
  match s with
  | EmptyString =>
      match line with EmptyString => [] | _ => [line] end
  | String c s' =>
      if is_linebreak c then
        match s' with
        | String c' s'' =>
            if ((ord c =? 13) && (ord c' =? 10))%N
            then line :: splitlines_from EmptyString s''
            else line :: splitlines_from EmptyString s'
        | EmptyString => [line]
        end
      else splitlines_from (line ++ String c EmptyString)%string s'
  end.

Definition splitlines (s : string) : list string :=
  splitlines_from EmptyString s.

(** What a call leaves: a value, or a raised exception. *)
Inductive message : Type :=
| IndexBetween (lower_bound upper_bound : Z)
    (* "Please provide an index between {lower_bound} and {upper_bound}." *)
| NoMatch.
    (* "I didn't get a match! Please try again with a different search term." *)

Inductive exception : Type :=
| BadArgument (m : message)
| TypeError
| IndexError.

Inductive result (A : Type) : Type :=
| Return (a : A)
| Raise (e : exception).
Arguments Return {A} a.
Arguments Raise {A} e.

(** [l[n]] on a list: a negative index counts from the end. *)
Definition getitem {A : Type} (l : list A) (n : Z) : result A :=
  let i := if n <? 0 then n + Z.of_nat (List.length l) else n in
  if i <? 0 then Raise IndexError
  else match nth_error l (Z.to_nat i) with
       | Some x => Return x
       | None => Raise IndexError
       end.

(** [float(n)] for [0 <= n < 2^63], the range of [len]. *)
Definition float_of_int (n : Z) : float := of_uint63 (Uint63.of_Z n).

(** The numbers [zen] computes with: a float, or a complex number.
    Only the type of a complex number decides what follows (ordering
    it raises [TypeError]), so its value is not kept. *)
Inductive number : Type :=
| Float (x : float)
| Complex.

(** [n ** 0.5] for an integer [n], which [float_pow] of
    [Objects/floatobject.c] computes on [float(n)]: the power of 0.0 is
    0.0, a negative base raised to a fractional power is complex, the
    power of 1.0 is 1.0, and any other base is passed to the [pow] of the
    C library, which reports no error on a positive finite base.  That
    function is not part of the interpreter and need not round correctly:
    [c_pow x] stands for its [pow(x, 0.5)]. *)
Definition pow_half (c_pow : float -> float) (n : Z) : number :=
  if n <? 0 then Complex
  else if n =? 0 then Float 0
  else if n =? 1 then Float 1
  else Float (c_pow (float_of_int n)).

(** [x * r] for a float [r]. *)
Definition mul (x : number) (r : float) : number :=
  match x with
  | Float f => Float (f * r)
  | Complex => Complex
  end.

End Py.
Import Py.

(** ** [difflib.SequenceMatcher]

    The matcher [zen] builds: [SequenceMatcher(None, a)] followed by
    [set_seq2(b)], so no junk predicate and [autojunk] left on.  Only
    [ratio()] is called. *)

Module SequenceMatcher.

Local Open Scope nat_scope.

(** A [dict] from indices of [b] to match lengths; [dict.get(key, 0)]. *)
Definition dict := list (nat * nat).

Fixpoint get (d : dict) (key : nat) : nat :=
  match d with
  | [] => 0
  | (k, v) :: d' => if k =? key then v else get d' key
  end.

(** [j2len.get(j-1, 0)]: the key [-1] is never present. *)
Definition get_pred (d : dict) (j : nat) : nat :=
  match j with
  | 0 => 0
  | S j' => get d j'
  end.

(** A [Match(i, j, size)]. *)
Record Match : Type := { m_a : nat; m_b : nat; m_size : nat }.

Section Sequences.

Variables a b : list ascii.

Definition item (s : list ascii) (i : nat) : ascii := nth i s Ascii.zero.

(** [__chain_b]: with [autojunk] and at least 200 elements in [b], an
    element that occurs more than [len(b) // 100 + 1] times is popular
    and gets no entry in [b2j]. *)
Definition popular (elt : ascii) : bool :=
  (200 <=? List.length b)
  && (List.length b / 100 + 1 <? count_occ ascii_dec b elt).

Fixpoint indices_from (j : nat) (s : list ascii) (elt : ascii) : list nat :=
  match s with
  | [] => []
  | c :: s' =>
      if Ascii.eqb c elt then j :: indices_from (S j) s' elt
      else indices_from (S j) s' elt
  end.

(** [b2j.get(elt, [])]: the indices of [elt] in [b], increasing. *)
Definition b2j (elt : ascii) : list nat :=
  if popular elt then [] else indices_from 0 b elt.

(** The loop over [j] of [find_longest_match], for one [i]. *)
Fixpoint scan_row (js : list nat) (i blo bhi : nat)
         (j2len newj2len : dict) (best : Match) : dict * Match :=
  match js with
  | [] => (newj2len, best)
  | j :: js' =>
      if j <? blo then scan_row js' i blo bhi j2len newj2len best
      else if bhi <=? j then (newj2len, best)
      else
        let k := get_pred j2len j + 1 in
        let newj2len := (j, k) :: newj2len in
        let best :=
          if m_size best <? k
          then {| m_a := i + 1 - k; m_b := j + 1 - k; m_size := k |}
          else best in
        scan_row js' i blo bhi j2len newj2len best
  end.

(** The loop over [i in range(alo, ahi)]; [rows] is what is left of the
    range. *)
Fixpoint scan_rows (rows : list nat) (blo bhi : nat)
         (j2len : dict) (best : Match) : Match :=
  match rows with
  | [] => best
  | i :: rows' =>
      let '(newj2len, best) :=
        scan_row (b2j (item a i)) i blo bhi j2len [] best in
      scan_rows rows' blo bhi newj2len best
  end.

(** First extension loop: while [besti > alo and bestj > blo] and the
    elements before the match agree, grow it to the left.  [room] is
    [besti - alo], so the first test is [room > 0]. *)
Fixpoint extend_left (room : nat) (blo : nat) (best : Match) : Match :=
  match room with
  | 0 => best
  | S room' =>
      if (blo <? m_b best)
         && Ascii.eqb (item a (m_a best - 1)) (item b (m_b best - 1))
      then extend_left room' blo
             {| m_a := m_a best - 1; m_b := m_b best - 1;
                m_size := m_size best + 1 |}
      else best
  end.

(** Second extension loop: while [besti+bestsize < ahi and
    bestj+bestsize < bhi] and the elements after the match agree, grow
    it to the right.  [room] is [ahi - (besti+bestsize)]. *)
Fixpoint extend_right (room : nat) (bhi : nat) (best : Match) : Match :=
  match room with
  | 0 => best
  | S room' =>
      if (m_b best + m_size best <? bhi)
         && Ascii.eqb (item a (m_a best + m_size best))
                      (item b (m_b best + m_size best))
      then extend_right room' bhi
             {| m_a := m_a best; m_b := m_b best;
                m_size := m_size best + 1 |}
      else best
  end.

(** [find_longest_match(alo, ahi, blo, bhi)].  The set of junk is
    empty, so the two loops over junk elements never run. *)
Definition find_longest_match (alo ahi blo bhi : nat) : Match :=
  let best := {| m_a := alo; m_b := blo; m_size := 0 |} in
  let best := scan_rows (seq alo (ahi - alo)) blo bhi [] best in
  let best := extend_left (m_a best - alo) blo best in
  extend_right (ahi - (m_a best + m_size best)) bhi best.

(** The work list of [get_matching_blocks]: [queue.pop()] takes the
    block appended last.  Every block found takes at least one
    element of [a] out of the ranges still to search, so the loop
    body runs at most [2 * len(a) + 1] times; [fuel] counts them. *)
Fixpoint matching_blocks (fuel : nat)
         (queue : list (nat * nat * nat * nat)) (blocks : list Match)
         {struct fuel} : list Match :=
  match queue with
  | [] => blocks
  | (alo, ahi, blo, bhi) :: queue' =>
      match fuel with
      | 0 => blocks
      | S fuel' =>
          let x := find_longest_match alo ahi blo bhi in
          let i := m_a x in
          let j := m_b x in
          let k := m_size x in
          if k =? 0 then matching_blocks fuel' queue' blocks
          else
            let queue1 :=
              if (alo <? i) && (blo <? j)
              then (alo, i, blo, j) :: queue' else queue' in
            let queue2 :=
              if (i + k <? ahi) && (j + k <? bhi)
              then (i + k, ahi, j + k, bhi) :: queue1 else queue1 in
            matching_blocks fuel' queue2 (blocks ++ [x])
      end
  end.

(** [get_matching_blocks()] before sorting and collapsing adjacent
    blocks, which change neither the blocks' total size nor add to
    it (the closing sentinel has size 0). *)
Definition get_matching_blocks : list Match :=
  matching_blocks (2 * List.length a + 1)
                  [(0, List.length a, 0, List.length b)] [].

(** [sum(triple[-1] for triple in self.get_matching_blocks())] *)
Definition matches : nat :=
  fold_right (fun x acc => m_size x + acc) 0 get_matching_blocks.

End Sequences.

(** [_calculate_ratio(matches, length)] *)
Definition calculate_ratio (matches length : nat) : float :=
  if length =? 0 then 1%float
  else (2 * float_of_int (Z.of_nat matches)
        / float_of_int (Z.of_nat length))%float.

(** [ratio()] of the matcher whose first sequence is [a] and second [b]. *)
Definition ratio (a b : string) : float :=
  let la := list_ascii_of_string a in
  let lb := list_ascii_of_string b in
  calculate_ratio (matches la lb) (List.length la + List.length lb).

End SequenceMatcher.

(** ** [Utils.zen] *)

Module Utils.

Local Open Scope string_scope.

Definition nl : string := String "010"%char EmptyString.

Definition ZEN_OF_PYTHON : string :=
  "Beautiful is better than ugly." ++ nl ++
  "Explicit is better than implicit." ++ nl ++
  "Simple is better than complex." ++ nl ++
  "Complex is better than complicated." ++ nl ++
  "Flat is better than nested." ++ nl ++
  "Sparse is better than dense." ++ nl ++
  "Readability counts." ++ nl ++
  "Special cases aren't special enough to break the rules." ++ nl ++
  "Although practicality beats purity." ++ nl ++
  "Errors should never pass silently." ++ nl ++
  "Unless explicitly silenced." ++ nl ++
  "In the face of ambiguity, refuse the temptation to guess." ++ nl ++
  "There should be one-- and preferably only one --obvious way to do it." ++ nl ++
  "Although that way may not be obvious at first unless you're Dutch." ++ nl ++
  "Now is better than never." ++ nl ++
  "Although never is often better than *right* now." ++ nl ++
  "If the implementation is hard to explain, it's a bad idea." ++ nl ++
  "If the implementation is easy to explain, it may be a good idea." ++ nl ++
  "Namespaces are one honking great idea -- let's do more of those!" ++ nl.

(** [search_value: Union[int, str, None]]: [None] is [None], and the
    two other types are told apart by [isinstance(search_value, int)]. *)
Inductive search : Type :=
| Index (n : Z)
| Query (s : string).

(** The embed [zen] sends.  Its title is "The Zen of Python" followed by
    ", by Tim Peters" or by " (line {i}):"; the record keeps which, and
    the number [i]. *)
Inductive title_suffix : Type :=
| ByTimPeters
| Line (i : Z).

Record Embed : Type := { title : title_suffix; description : string }.

Section Zen.

(** [c_pow x] is [pow(x, 0.5)] of the C library the interpreter is
    linked with. *)
Variable c_pow : float -> float.

(** [ratio a b] is [matcher.ratio()] for the matcher built by
    [SequenceMatcher(None, a)] and [set_seq2(b)]. *)
Variable ratio : string -> string -> float.

(** [zen_lines = ZEN_OF_PYTHON.splitlines()] *)
Variable zen_lines : list string.

(** Lines 113-122: [search_value] is an [int]. *)
Definition by_index (search_value : Z) : result Embed :=
  let upper_bound := Z.of_nat (List.length zen_lines) - 1 in
  let lower_bound := -1 * Z.of_nat (List.length zen_lines) in
  if negb ((lower_bound <=? search_value)%Z && (search_value <=? upper_bound)%Z)
  then Raise (BadArgument (IndexBetween lower_bound upper_bound))
  else
    match getitem zen_lines search_value with
    | Return line =>
        Return {| title :=
                    Line (search_value mod Z.of_nat (List.length zen_lines));
                  description := line |}
    | Raise e => Raise e
    end.

(** Lines 126-132: the first line, from index [i] on, one of whose
    words is [search_value] up to case. *)
Fixpoint exact_word (i : nat) (lines : list string) (search_value : string)
  : option (nat * string) :=
  match lines with
  | [] => None
  | line :: lines' =>
      if existsb (fun word => String.eqb (lower word) (lower search_value))
                 (split line)
      then Some (i, line)
      else exact_word (S i) lines' search_value
  end.

(** Line 147: [(len(line) - 5) ** 0.5 * matcher.ratio()], the matcher
    holding [search_value.lower()] and [line.lower()]. *)
Definition adjusted_ratio (search_value line : string) : number :=
  mul (pow_half c_pow (len line - 5))
      (ratio (lower search_value) (lower line)).

(** The three variables of the loop of lines 141-152. *)
Record best : Type :=
  { best_match : string; match_index : nat; best_ratio : float }.

(** Lines 137-139.  [best_ratio] starts as the integer 0, which
    compares with a float as 0.0 does. *)
Definition best_init : best :=
  {| best_match := EmptyString; match_index := 0; best_ratio := 0%float |}.

(** Lines 141-152, from [index] on.  [adjusted_ratio > best_ratio]
    raises [TypeError] when [adjusted_ratio] is complex. *)
Fixpoint best_loop (search_value : string) (index : nat)
         (lines : list string) (st : best) : result best :=
  match lines with
  | [] => Return st
  | line :: lines' =>
      match adjusted_ratio search_value line with
      | Complex => Raise TypeError
      | Float adjusted =>
          if (best_ratio st <? adjusted)%float
          then best_loop search_value (S index) lines'
                 {| best_match := line; match_index := index;
                    best_ratio := adjusted |}
          else best_loop search_value (S index) lines' st
      end
  end.

(** Lines 134-159: no word matched. *)
Definition by_ratio (search_value : string) : result Embed :=
  match best_loop search_value 0 zen_lines best_init with
  | Raise e => Raise e
  | Return st =>
      match best_match st with
      | EmptyString => Raise (BadArgument NoMatch)
      | _ =>
          Return {| title := Line (Z.of_nat (match_index st));
                    description := best_match st |}
      end
  end.

(** Lines 110-159: [zen] once [search_value] is not [None]. *)
Definition resolve (search_value : search) : result Embed :=
  match search_value with
  | Index n => by_index n
  | Query s =>
      match exact_word 0 zen_lines s with
      | Some (i, line) =>
          Return {| title := Line (Z.of_nat i); description := line |}
      | None => by_ratio s
      end
  end.

End Zen.

(** The embed [zen] builds from the text [text] of [ZEN_OF_PYTHON], or
    the exception it raises. *)
Definition zen_embed (c_pow : float -> float)
           (ratio : string -> string -> float) (text : string)
           (search_value : option search) : result Embed :=
  match search_value with
  | None => Return {| title := ByTimPeters; description := text |}
  | Some v => resolve c_pow ratio (splitlines text) v
  end.

(** What a call of the command can see and change: the module-level
    constant and the messages sent to the channel so far. *)
Record World : Type :=
  { zen_of_python : string; channel : list Embed }.

(** [ctx.send(embed=embed)] *)
Definition send (embed : Embed) (w : World) : World :=
  {| zen_of_python := zen_of_python w;
     channel := (channel w ++ [embed])%list |}.

(** The command: it sends the embed, or raises and sends nothing. *)
Definition zen (c_pow : float -> float)
           (ratio : string -> string -> float)
           (search_value : option search) (w : World)
  : result unit * World :=
  match zen_embed c_pow ratio (zen_of_python w) search_value with
  | Return embed => (Return tt, send embed w)
  | Raise e => (Raise e, w)
  end.

(** [zen_lines] for the text as deployed. *)
Definition zen_lines : list string := splitlines ZEN_OF_PYTHON.

End Utils.
Import Utils.

(** ** Text as code points

    [charinfo], [snowflake], [vote] and [unfurl_url] use of a [str] only
    its length, its slices, concatenation, comparison and the code points
    of its characters, none of which reads a table of Unicode: for them a
    [str] is the list of its code points, of any plane. *)

Module Text.

Definition str : Type := list N.

(** A literal of ASCII characters. *)
Definition lit (s : string) : str :=
  map N_of_ascii (list_ascii_of_string s).

(** [len(s)] *)
Definition len (s : str) : Z := Z.of_nat (List.length s).

(** [s == t] *)
Fixpoint eqb (s t : str) : bool :=
  match s, t with
  | [], [] => true
  | c :: s', d :: t' => (c =? d)%N && eqb s' t'
  | _, _ => false
  end.

(** [sep.join(items)] *)
Fixpoint join (sep : str) (items : list str) : str :=
  match items with
  | [] => []
  | x :: rest =>
      match rest with
      | [] => x
      | _ => (x ++ sep ++ join sep rest)%list
      end
  end.

(** [s.rjust(width, fill)], which is also [f"{s:>0{width}}"] for the
    fill "0". *)
Definition rjust (width : nat) (fill : N) (s : str) : str :=
  (repeat fill (width - List.length s) ++ s)%list.

(** [s.ljust(width)] pads with spaces. *)
Definition ljust (width : nat) (s : str) : str :=
  (s ++ repeat 32%N (width - List.length s))%list.

(** The character of one hexadecimal digit, lowercase. *)
Definition hex_digit (d : N) : N :=
  (if d <? 10 then 48 + d else 87 + d)%N.

(** The digits of [n] from the last one up, put before [digits]; [fuel]
    is a bound on their number. *)
Fixpoint hex_from (fuel : nat) (n : N) (digits : str) : str :=
  match fuel with
  | O => digits
  | S fuel' =>
      if (n =? 0)%N then digits
      else hex_from fuel' (n / 16)%N (hex_digit (n mod 16) :: digits)
  end.

(** [f"{n:x}"]: a number has no more hexadecimal digits than bits. *)
Definition hex (n : N) : str :=
  if (n =? 0)%N then [48%N] else hex_from (N.to_nat (N.size n)) n [].

(** [int(s, 16)] on lowercase digits, for the statements. *)
Definition hex_value (c : N) : N :=
  (if (48 <=? c) && (c <=? 57) then c - 48
   else if (97 <=? c) && (c <=? 102) then c - 87
   else 0)%N.

Definition of_hex (s : str) : N :=
  fold_left (fun v c => (16 * v + hex_value c)%N) s 0%N.

End Text.

(** ** [re.match] on the pattern of [charinfo] *)

Module Re.

Import Text.

(** The pieces the pattern is made of: a character, an optional
    character, one or more characters of a class.  Groups only record
    what matched, and [charinfo] reads only whether there is a match. *)
Inductive atom : Type :=
| Lit (c : N)
| Opt (c : N)
| Plus (class : N -> bool).

(** One or more characters of [class], then [k] on what follows; the
    longest run is tried first. *)
Fixpoint plus (class : N -> bool) (k : str -> bool) (s : str) : bool :=
  match s with
  | [] => false
  | c :: s' => class c && (plus class k s' || k s')
  end.

(** [re.match]: the pattern matches a prefix of [s]. *)
Fixpoint match_prefix (pattern : list atom) (s : str) : bool :=
  match pattern with
  | [] => true
  | Lit c :: rest =>
      match s with
      | d :: s' => (d =? c)%N && match_prefix rest s'
      | [] => false
      end
  | Opt c :: rest =>
      match s with
      | d :: s' => ((d =? c)%N && match_prefix rest s') || match_prefix rest s
      | [] => match_prefix rest s
      end
  | Plus class :: rest => plus class (match_prefix rest) s
  end.

End Re.

(** ** [Utils.charinfo] *)

Module Charinfo.

Import Text.

(** How the command ends: a denial sent by [messages.send_denial], the
    paginated list of lines with the field 'Full Raw Text' when there is
    one, or the [ValueError] of unpacking an empty [zip]. *)
Inductive denial : Type :=
| NonCharacter
    (* "**Non-Character Detected** ... a custom Discord emoji was found." *)
| TooMany (n : Z).
    (* "Too many characters ({n}/50)" *)

Inductive outcome : Type :=
| Denied (d : denial)
| Paginated (char_list : list str) (full_raw_text : option str)
| ValueError.

Section Tables.

(** The classes [\w] and [\d] of [re] on a [str] pattern. *)
Variables word digit : N -> bool.

(** [unicodedata.name(char, '')] and [discord.utils.escape_markdown]. *)
Variable name : N -> str.
Variable escape_markdown : str -> str.

(** [r"<(a?):(\w+):(\d+)>"] *)
Definition emoji_pattern : list Re.atom :=
  [Re.Lit 60; Re.Opt 97; Re.Lit 58; Re.Plus word; Re.Lit 58; Re.Plus digit;
   Re.Lit 62]%N.

(** Lines 70-79, for the character of code point [char]. *)
Definition get_info (char : N) : str * str :=
  let digit := hex char in
  let u_code :=
    if (List.length digit <=? 4)%nat
    then (lit "\u" ++ rjust 4 48%N digit)%list
    else (lit "\U" ++ rjust 8 48%N digit)%list in
  let url :=
    (lit "https://www.compart.com/en/unicode/U+" ++ rjust 4 48%N digit)%list in
  let name := (lit "[" ++ name char ++ lit "](" ++ url ++ lit ")")%list in
  let info :=
    (lit "`" ++ ljust 10 u_code ++ lit "`: " ++ name ++ lit " - "
     ++ escape_markdown [char])%list in
  (info, u_code).

(** Lines 54-88. *)
Definition charinfo (characters : str) : outcome :=
  if Re.match_prefix emoji_pattern characters then Denied NonCharacter
  else if (len characters >? 50)%Z then Denied (TooMany (len characters))
  else
    match characters with
    | [] => ValueError
    | _ =>
        let infos := map get_info characters in
        let char_list := map fst infos in
        let raw_list := map snd infos in
        Paginated char_list
                  (if (len characters >? 1)%Z
                   then Some (lit "`" ++ join [] raw_list ++ lit "`")%list
                   else None)
    end.

End Tables.

End Charinfo.

(** ** [Utils.snowflake] *)

Module Snowflakes.

Import Text.

Inductive outcome : Type :=
| NoSnowflake
    (* BadArgument("At least one snowflake must be provided.") *)
| Paginated (author_name : str) (lines : list str).

Section Time.

(** [discord.utils.snowflake_time], [str] of what it returns,
    [bot.utils.time.time_since], and [str] of a snowflake. *)
Variable datetime : Type.
Variable snowflake_time : Z -> datetime.
Variable str_of_datetime : datetime -> str.
Variable time_since : datetime -> str.
Variable str_of_int : Z -> str.

(** Lines 163-185. *)
Definition snowflake (snowflakes : list Z) : outcome :=
  match snowflakes with
  | [] => NoSnowflake
  | _ =>
      let n := N.of_nat (List.length snowflakes) in
      let author_name :=
        (lit "Snowflake" ++ firstn (N.to_nat (N.lxor n 1)) (lit "s"))%list in
      let line (snowflake : Z) :=
        let created_at := snowflake_time snowflake in
        (lit "**" ++ str_of_int snowflake ++ lit "**" ++ [10%N]
         ++ lit "Created at " ++ str_of_datetime created_at ++ lit " ("
         ++ time_since created_at ++ lit ").")%list in
      Paginated author_name (map line snowflakes)
  end.

End Time.

End Snowflakes.

(** ** [Utils.vote] *)

Module Vote.

Import Text.

Inductive error : Type :=
| TitleTooLong   (* "The title cannot be longer than 256 characters." *)
| TooFewOptions  (* "Please provide at least 2 options." *)
| TooManyOptions. (* "I can only handle 20 options!" *)

(** A [dict] of strings: insertion order, a key set again keeps its
    place and takes the new value. *)
Definition dict : Type := list (str * str).

Fixpoint dict_set (d : dict) (key value : str) : dict :=
  match d with
  | [] => [(key, value)]
  | (k, v) :: d' =>
      if eqb k key then (k, value) :: d'
      else (k, v) :: dict_set d' key value
  end.

Definition keys (d : dict) : list str := map fst d.
Definition values (d : dict) : list str := map snd d.

(** Represents "regional_indicator_a". *)
Definition codepoint_start : N := 127462.

(** Line 204: the comprehension over [enumerate(options, start=i)],
    adding to [d]. *)
Fixpoint comprehension (i : N) (options : list str) (d : dict) : dict :=
  match options with
  | [] => d
  | v :: options' =>
      comprehension (i + 1)%N options'
                    (dict_set d [i] ([i] ++ lit " - " ++ v)%list)
  end.

(** The message sent and the reactions added to it, in order. *)
Record Poll : Type :=
  { poll_title : str; poll_description : str; reactions : list str }.

(** Lines 189-208. *)
Definition vote (title : str) (options : list str) : error + Poll :=
  if (len title >? 256)%Z then inl TitleTooLong
  else if (Z.of_nat (List.length options) <? 2)%Z then inl TooFewOptions
  else if (Z.of_nat (List.length options) >? 20)%Z then inl TooManyOptions
  else
    let options := comprehension codepoint_start options [] in
    inr {| poll_title := title;
           poll_description := join [10%N] (values options);
           reactions := keys options |}.

End Vote.

(** ** [Utils.unfurl_url] *)

Module Unfurl.

Import Text.

(** What [services.unfurl_url] answers with; times are timestamps. *)
Record UnfurlResult : Type :=
  { error : option str;
    depth : option Z;
    created_at : Z;
    destination : option str }.

Inductive colour : Type := Green | Red.

Inductive field_value : Type :=
| Str (s : str)
| Int (n : Z).

Record Field : Type :=
  { field_name : str; field_value_of : field_value; inline : bool }.

Record Embed : Type :=
  { embed_title : str; embed_colour : colour; fields : list Field }.

(** What the command does that can be seen from outside, in order. *)
Inductive event : Type :=
| RoleCheck
| Unfurl (url : str) (max_continues : Z) (use_cache : bool)
| Paste (contents : str)
| SendText (content : str)
| SendEmbed (embed : Embed).

Inductive error_message : Type :=
| TooManyRedirects  (* "Maximum of 5 redirects allowed." *)
| NoPermission.     (* "You do not have permission to skip the cache." *)

Section Services.

(** [checks.has_any_role_check(ctx, *STAFF_ROLES)] for the author. *)
Variable staff : bool.

(** [services.unfurl_url], and the text that
    [services.send_to_paste_service(.., extension="txt")] formats to. *)
Variable service : str -> Z -> bool -> option UnfurlResult.
Variable paste_service : str -> str.

(** [time.discord_timestamp(.., time.TimestampFormats.RELATIVE)],
    [services.CACHE_LENGTH], and the mention of [Channels.dev_contrib]. *)
Variable discord_timestamp : Z -> str.
Variable CACHE_LENGTH : Z.
Variable dev_contrib : str.

Definition add_field (e : Embed) (name : str) (value : field_value)
           (inline : bool) : Embed :=
  {| embed_title := embed_title e;
     embed_colour := embed_colour e;
     fields := (fields e ++ [{| field_name := name; field_value_of := value;
                                inline := inline |}])%list |}.

(** Lines 237-241. *)
Definition shorten (url : str) : str :=
  let title := firstn 50 url in
  if negb (eqb title url) then (title ++ lit "...")%list else title.

(** Lines 243-259: the embed before the destination is looked at. *)
Definition embed_of_result (url : str) (result : UnfurlResult) : Embed :=
  let color := match error result with None => Green | Some _ => Red end in
  let embed :=
    {| embed_title := (lit "`" ++ shorten url ++ lit "`")%list;
       embed_colour := color; fields := [] |} in
  let embed :=
    match depth result with
    | Some d => add_field embed (lit "Redirects") (Int d) true
    | None => embed
    end in
  match error result with
  | None =>
      let creation := discord_timestamp (created_at result) in
      let expiry := discord_timestamp (created_at result + CACHE_LENGTH) in
      add_field (add_field embed (lit "Fetched") (Str creation) true)
                (lit "Expiry") (Str expiry) true
  | Some err => add_field embed (lit "Error") (Str err) false
  end.

(** Lines 261-275: the destination, pasted when the field would be too
    long; the events are the calls of the paste service. *)
Definition add_destination (embed : Embed) (result : UnfurlResult)
  : list event * Embed :=
  match destination result with
  | None => ([], embed)
  | Some d =>
      let _dest := (lit "`" ++ d ++ lit "`")%list in
      let '(events, dest) :=
        if (len _dest >? 1024)%Z
        then ([Paste d],
              (lit "Result was too long to display, you can find it [here]("
               ++ paste_service d ++ lit ").")%list)
        else ([], _dest) in
      let embed := add_field embed (lit "Destination") (Str dest) true in
      let embed :=
        if (len dest <? 30)%Z
        then add_field embed [8203%N] (Str [8203%N]) true
        else embed in
      (events, embed)
  end.

(** Lines 212-277: the events of a call, and the error it raises if it
    does.  The role check is made only when [use_cache] is false; the
    typing indicator shown around the call of the service is not kept. *)
Definition unfurl_url (url : str) (max_continues : Z) (use_cache : bool)
  : list event * option error_message :=
  if (max_continues >? 5)%Z then ([], Some TooManyRedirects)
  else if negb use_cache && negb staff then ([RoleCheck], Some NoPermission)
  else
    let checked := if use_cache then [] else [RoleCheck] in
    let called := (checked ++ [Unfurl url max_continues use_cache])%list in
    match service url max_continues use_cache with
    | None =>
        ((called
          ++ [SendText
                (lit "Could not resolve this URL. If you believe this to be an error, please report it in <#"
                 ++ dev_contrib ++ lit ">.")])%list,
         None)
    | Some result =>
        let '(pasted, embed) :=
          add_destination (embed_of_result url result) result in
        ((called ++ pasted ++ [SendEmbed embed])%list, None)
    end.

End Services.

End Unfurl.

(** ** Vocabulary of the statements *)

(** [line] has a word equal to [s] up to case. *)
Definition has_word (s line : string) : Prop :=
  exists word, In word (split line) /\ lower word = lower s.

Definition has_wordb (s line : string) : bool :=
  existsb (fun word => String.eqb (lower word) (lower s)) (split line).

(** The example corpus of the specification: line 0 wins over line 1. *)
Definition now_corpus : list string :=
  ["now is never"; "Now is better than never."]%string.

(** The adjusted score as the specification words it:
    [sqrt(max(len(line) - 5, 0)) * rawRatio], the ratio taken between the
    lowercased query and the lowercased line. *)
Definition spec_adjusted_score (ratio : string -> string -> float)
           (s line : string) : float :=
  (sqrt (float_of_int (Z.max (len line - 5) 0))
   * ratio (lower s) (lower line))%float.

(** The float that [n ** 0.5] is for [0 <= n]. *)
Definition float_pow_half (c_pow : float -> float) (n : Z) : float :=
  if n =? 0 then 0%float
  else if n =? 1 then 1%float
  else c_pow (float_of_int n).

(** [line] produces a strictly positive adjusted score for the query [s]. *)
Definition positive_score (c_pow : float -> float)
           (ratio : string -> string -> float)
           (s line : string) : Prop :=
  exists x, adjusted_ratio c_pow ratio s line = Float x /\ (0 <? x)%float = true.

(** What the loop of lines 141-152 has established once it has been
    through the lines [pre]: every one of them had a float for a score,
    and either nothing was kept and none scored above 0, or the line kept
    is one of them, scored above 0, no line seen scores above it and no
    earlier line scores as much. *)
Definition seen (c_pow : float -> float)
           (ratio : string -> string -> float) (s : string)
           (pre : list string) (st : best) : Prop :=
  (forall line, In line pre -> exists x, adjusted_ratio c_pow ratio s line = Float x)
  /\ ((st = best_init
       /\ forall line, In line pre -> ~ positive_score c_pow ratio s line)
      \/ (nth_error pre (match_index st) = Some (best_match st)
          /\ adjusted_ratio c_pow ratio s (best_match st) = Float (best_ratio st)
          /\ (0 <? best_ratio st)%float = true
          /\ forall j line x,
               nth_error pre j = Some line ->
               adjusted_ratio c_pow ratio s line = Float x ->
               (best_ratio st <? x)%float = false
               /\ ((j < match_index st)%nat ->
                   (best_ratio st <=? x)%float = false))).

(** The characters of a string. *)
Definition chars (s : string) : list ascii := list_ascii_of_string s.

(** [s] and [line] share no character once both are lowercased. *)
Definition no_common_char (s line : string) : Prop :=
  forall c, In c (chars (lower s)) -> ~ In c (chars (lower line)).

(** The small sharp s, U+00DF. *)
Definition eszett : ascii := ascii_of_N 223.

(** ** Vocabulary for the matcher's work list *)

(** A match lies within the range [alo, ahi) of the first sequence. *)
Definition within (alo ahi : nat) (x : SequenceMatcher.Match) : Prop :=
  (alo <= SequenceMatcher.m_a x)%nat
  /\ (SequenceMatcher.m_a x + SequenceMatcher.m_size x <= ahi)%nat.

(** What is left to search in a work list: twice the elements of the
    first sequence in its ranges, plus one per range. *)
Fixpoint weight (queue : list (nat * nat * nat * nat)) : nat :=
  match queue with
  | [] => 0
  | (alo, ahi, _, _) :: queue' => (2 * (ahi - alo) + 1 + weight queue')%nat
  end.

Fixpoint ordered (queue : list (nat * nat * nat * nat)) : Prop :=
  match queue with
  | [] => True
  | (alo, ahi, _, _) :: queue' => (alo <= ahi)%nat /\ ordered queue'
  end.

(** ** Order of binary64 numbers *)

Module FloatOrder.

(** A key whose lexicographic order is the order of the numbers; a NaN
    has none. *)
Definition key (x : spec_float) : option (Z * Z * Z) :=
  match x with
  | S754_nan => None
  | S754_infinity true => Some (-2, 0, 0)
  | S754_infinity false => Some (2, 0, 0)
  | S754_zero _ => Some (0, 0, 0)
  | S754_finite true m e => Some (-1, - e, Zneg m)
  | S754_finite false m e => Some (1, e, Zpos m)
  end.

Definition fkey (x : float) : option (Z * Z * Z) := key (Prim2SF x).

Definition lex (a b : Z * Z * Z) : comparison :=
  let '(a1, a2, a3) := a in
  let '(b1, b2, b3) := b in
  match a1 ?= b1 with
  | Eq => match a2 ?= b2 with
          | Eq => a3 ?= b3
          | c => c
          end
  | c => c
  end.

Definition lt3 (a b : Z * Z * Z) : Prop :=
  let '(a1, a2, a3) := a in
  let '(b1, b2, b3) := b in
  a1 < b1 \/ (a1 = b1 /\ (a2 < b2 \/ (a2 = b2 /\ a3 < b3))).

(** Numbers that are a zero or a NaN: none is above 0. *)
Definition zero_or_nan (x : float) : Prop :=
  match Prim2SF x with
  | S754_zero _ | S754_nan => True
  | _ => False
  end.

End FloatOrder.

(** ** Vocabulary of the statements on the other commands *)

(** The number read from hexadecimal digits, after [v]. *)
Definition value_from (v : N) (s : Text.str) : N :=
  fold_left (fun v c => (16 * v + Text.hex_value c)%N) s v.

(** [s] begins with the tag of a custom emoji: "<", an optional "a", ":",
    a name of word characters, ":", an identifier of digits, ">". *)
Definition starts_with_emoji (word digit : N -> bool) (s : Text.str) : Prop :=
  exists a name id rest,
    s = ([60%N] ++ a ++ [58%N] ++ name ++ [58%N] ++ id ++ [62%N] ++ rest)%list
    /\ (a = [] \/ a = [97%N])
    /\ name <> [] /\ forallb word name = true
    /\ id <> [] /\ forallb digit id = true.

(** The largest code point is U+10FFFF. *)
Definition code_point (c : N) : Prop := (c < 1114112)%N.

(** Sample tables for the examples: ASCII letters, digits and "_" for
    [\w], ASCII digits for [\d], no names and no escaping. *)
Definition ascii_digit (c : N) : bool := ((48 <=? c) && (c <=? 57))%N.

Definition ascii_word (c : N) : bool :=
  (ascii_digit c || ((65 <=? c) && (c <=? 90)) || ((97 <=? c) && (c <=? 122))
   || (c =? 95))%N.

Definition no_name (c : N) : Text.str := [].

Definition no_escape (s : Text.str) : Text.str := s.

(** The entries the comprehension of [vote] makes for [options], counted
    from [i]. *)
Fixpoint entries (i : N) (options : list Text.str) : Vote.dict :=
  match options with
  | [] => []
  | v :: options' =>
      ([i], ([i] ++ Text.lit " - " ++ v)%list) :: entries (i + 1)%N options'
  end.

(** Every key of [d] is one character, below [i]. *)
Definition keys_below (i : N) (d : Vote.dict) : Prop :=
  forall k v, In (k, v) d -> exists j, k = [j] /\ (j < i)%N.

(** The fields of an embed that are called [name]. *)
Definition fields_named (name : Text.str) (e : Unfurl.Embed)
  : list Unfurl.Field :=
  filter (fun f => Text.eqb (Unfurl.field_name f) name) (Unfurl.fields e).

(** An event that sends a message. *)
Definition is_send (ev : Unfurl.event) : bool :=
  match ev with
  | Unfurl.SendText _ | Unfurl.SendEmbed _ => true
  | _ => false
  end.

(** Sample services for the examples: the URL redirects once to itself,
    was fetched at time 0, and the paste service answers "p". *)
Definition sample_service (url : Text.str) (max_continues : Z)
           (use_cache : bool) : option Unfurl.UnfurlResult :=
  Some {| Unfurl.error := None; Unfurl.depth := Some 1;
          Unfurl.created_at := 0; Unfurl.destination := Some url |}.

Definition sample_paste (contents : Text.str) : Text.str := Text.lit "p".

Definition sample_timestamp (t : Z) : Text.str := Text.lit "t".

(** The calls of [services.unfurl_url] among some events. *)
Definition service_calls (events : list Unfurl.event)
  : list (Text.str * Z * bool) :=
  flat_map (fun ev => match ev with
                      | Unfurl.Unfurl url m c => [(url, m, c)]
                      | _ => []
                      end) events.

(** The notice that stands for a destination too long to show. *)
Definition paste_notice (paste : Text.str) : Text.str :=
  (Text.lit "Result was too long to display, you can find it [here]("
   ++ paste ++ Text.lit ").")%list.

(** The field that only aligns the others. *)
Definition alignment_field : Unfurl.Field :=
  {| Unfurl.field_name := [8203%N];
     Unfurl.field_value_of := Unfurl.Str [8203%N];
     Unfurl.inline := true |}.

(** * Properties *)

(** ** Order of binary64 numbers: facts *)

Import FloatOrder.


Lemma SFcompare_key (x y : spec_float) :
  SFcompare x y
  = match key x, key y with
    | Some a, Some b => Some (lex a b)
    | _, _ => None
    end.
Proof.
  destruct x as [sx | sx | | sx mx ex], y as [sy | sy | | sy my ey];
    try destruct sx; try destruct sy; try reflexivity.
  simpl. rewrite Z.compare_opp, (Z.compare_antisym ex ey).
  destruct (ex ?= ey); reflexivity.
Qed.

Lemma lex_Lt (a b : Z * Z * Z) : lex a b = Lt <-> lt3 a b.
Proof.
  destruct a as [[a1 a2] a3], b as [[b1 b2] b3]. simpl.
  destruct (Z.compare_spec a1 b1); [destruct (Z.compare_spec a2 b2);
    [destruct (Z.compare_spec a3 b3) | |] | |];
    split; intro; try discriminate; try reflexivity; lia.
Qed.

Lemma lex_Eq (a b : Z * Z * Z) : lex a b = Eq <-> a = b.
Proof.
  destruct a as [[a1 a2] a3], b as [[b1 b2] b3]. simpl.
  destruct (Z.compare_spec a1 b1); [destruct (Z.compare_spec a2 b2);
    [destruct (Z.compare_spec a3 b3) | |] | |];
    split; intro H'; try discriminate; try reflexivity;
    try (inversion H'; lia); subst; reflexivity.
Qed.

Lemma ltb_key (x y : float) :
  (x <? y)%float = true
  <-> exists a b, fkey x = Some a /\ fkey y = Some b /\ lt3 a b.
Proof.
  rewrite ltb_spec. unfold SFltb, fkey. rewrite SFcompare_key.
  destruct (key (Prim2SF x)) as [a |], (key (Prim2SF y)) as [b |].
  - split.
    + intro H. exists a, b. repeat split.
      destruct (lex a b) eqn:E; try discriminate. apply lex_Lt. exact E.
    + intros [a' [b' [Ha [Hb H]]]].
      injection Ha as <-. injection Hb as <-.
      apply lex_Lt in H. rewrite H. reflexivity.
  - split; [discriminate | intros [a' [b' [_ [Hb _]]]]; discriminate].
  - split; [discriminate | intros [a' [b' [Ha _]]]; discriminate].
  - split; [discriminate | intros [a' [b' [Ha _]]]; discriminate].
Qed.

Lemma leb_key (x y : float) :
  (x <=? y)%float = true
  <-> exists a b, fkey x = Some a /\ fkey y = Some b /\ (lt3 a b \/ a = b).
Proof.
  rewrite leb_spec. unfold SFleb, fkey. rewrite SFcompare_key.
  destruct (key (Prim2SF x)) as [a |], (key (Prim2SF y)) as [b |].
  - split.
    + intro H. exists a, b. repeat split.
      destruct (lex a b) eqn:E; try discriminate;
        [right; apply lex_Eq | left; apply lex_Lt]; exact E.
    + intros [a' [b' [Ha [Hb H]]]].
      injection Ha as <-. injection Hb as <-.
      destruct H as [H | H]; [apply lex_Lt in H | apply lex_Eq in H];
        rewrite H; reflexivity.
  - split; [discriminate | intros [a' [b' [_ [Hb _]]]]; discriminate].
  - split; [discriminate | intros [a' [b' [Ha _]]]; discriminate].
  - split; [discriminate | intros [a' [b' [Ha _]]]; discriminate].
Qed.

Lemma lt3_trans (a b c : Z * Z * Z) : lt3 a b -> lt3 b c -> lt3 a c.
Proof.
  destruct a as [[a1 a2] a3], b as [[b1 b2] b3], c as [[c1 c2] c3].
  simpl. lia.
Qed.

Lemma lt3_irrefl (a : Z * Z * Z) : ~ lt3 a a.
Proof. destruct a as [[a1 a2] a3]. simpl. lia. Qed.

(** [x < y] and [y < z] give [x < z]. *)
Lemma ltb_trans (x y z : float) :
  (x <? y)%float = true -> (y <? z)%float = true -> (x <? z)%float = true.
Proof.
  rewrite !ltb_key.
  intros [a [b [Ha [Hb Hab]]]] [b' [c [Hb' [Hc Hbc]]]].
  rewrite Hb in Hb'. inversion Hb'; subst b'.
  exists a, c. repeat split; auto. eapply lt3_trans; eauto.
Qed.

Lemma ltb_irrefl (x : float) : (x <? x)%float = false.
Proof.
  destruct (x <? x)%float eqn:E; [| reflexivity].
  apply ltb_key in E. destruct E as [a [b [Ha [Hb Hab]]]].
  rewrite Ha in Hb. inversion Hb; subst. exfalso. eapply lt3_irrefl; eauto.
Qed.

(** When [s] is not above [b] and [b < b'], [s] is not above [b'], and
    not even equal to it. *)
Lemma not_above_raise (b b' s : float) :
  (b <? s)%float = false -> (b <? b')%float = true ->
  (b' <? s)%float = false /\ (b' <=? s)%float = false.
Proof.
  intros Hs Hb. apply ltb_key in Hb. destruct Hb as [kb [kb' [Hkb [Hkb' Hlt]]]].
  assert (Hn : forall ks, fkey s = Some ks -> ~ lt3 kb ks).
  { intros ks Hks Habs.
    assert ((b <? s)%float = true)
      by (apply ltb_key; exists kb, ks; auto).
    congruence. }
  split.
  - destruct (b' <? s)%float eqn:E; [| reflexivity].
    apply ltb_key in E. destruct E as [k1 [ks [H1 [Hks H1s]]]].
    rewrite Hkb' in H1. inversion H1; subst k1.
    exfalso. apply (Hn ks Hks). eapply lt3_trans; eauto.
  - destruct (b' <=? s)%float eqn:E; [| reflexivity].
    apply leb_key in E. destruct E as [k1 [ks [H1 [Hks H1s]]]].
    rewrite Hkb' in H1. inversion H1; subst k1.
    exfalso. apply (Hn ks Hks).
    destruct H1s as [H1s | ->]; [eapply lt3_trans; eauto | exact Hlt].
Qed.

Lemma zero_or_nan_not_positive (x : float) :
  zero_or_nan x -> (0 <? x)%float = false.
Proof.
  unfold zero_or_nan. intro H. rewrite ltb_spec.
  destruct (Prim2SF x); try contradiction; reflexivity.
Qed.

Lemma mul_zero_or_nan_l (x y : float) :
  zero_or_nan x -> zero_or_nan (x * y).
Proof.
  unfold zero_or_nan. rewrite mul_spec. unfold SF64mul, SFmul.
  destruct (Prim2SF x), (Prim2SF y); intro H; try exact I; contradiction.
Qed.

Lemma mul_zero_or_nan_r (x y : float) :
  zero_or_nan y -> zero_or_nan (x * y).
Proof.
  unfold zero_or_nan. rewrite mul_spec. unfold SF64mul, SFmul.
  destruct (Prim2SF x), (Prim2SF y); intro H; try exact I; contradiction.
Qed.

Lemma div_zero_or_nan (x y : float) :
  zero_or_nan x -> zero_or_nan (x / y).
Proof.
  unfold zero_or_nan. rewrite div_spec. unfold SF64div, SFdiv.
  destruct (Prim2SF x), (Prim2SF y); intro H; try exact I; contradiction.
Qed.

Lemma zero_is_zero : zero_or_nan 0.
Proof. exact I. Qed.


(** ** Selection by index *)

Lemma getitem_in_range {A : Type} (l : list A) (n : Z) :
  let L := Z.of_nat (List.length l) in
  - L <= n <= L - 1 ->
  exists x, nth_error l (Z.to_nat (n mod L)) = Some x /\ getitem l n = Return x.
Proof.
  intros L Hn. unfold getitem. fold L.
  assert (HL : 0 < L) by lia.
  assert (Hm : n mod L = if n <? 0 then n + L else n).
  { destruct (Z.ltb_spec n 0).
    - rewrite <- (Z_mod_plus_full n 1 L), Z.mul_1_l. apply Z.mod_small. lia.
    - apply Z.mod_small. lia. }
  rewrite Hm.
  set (i := if n <? 0 then n + L else n).
  assert (Hi : 0 <= i < L) by (unfold i; destruct (Z.ltb_spec n 0); lia).
  destruct (Z.ltb_spec i 0) as [Hneg | _]; [lia |].
  destruct (nth_error l (Z.to_nat i)) as [x |] eqn:Hx.
  - exists x. split; reflexivity.
  - apply nth_error_None in Hx. unfold L in Hi. lia.
Qed.

Lemma normalized_index (n L : Z) : 0 < L -> (n mod L + L) mod L = n mod L.
Proof.
  intro HL.
  rewrite <- (Z.mul_1_l L) at 2. rewrite Z_mod_plus_full.
  apply Z.mod_small. apply Z.mod_pos_bound. exact HL.
Qed.

(** C3.  For a corpus of [L] lines and an integer [n]: when
    [-L <= n <= L-1], [resolve] returns the line at the normalized index
    [((n % L) + L) % L] under the title "line" with that index; otherwise
    it raises [BadArgument] with the bounds [-L] and [L-1].  On a corpus of
    one line, only 0 and -1 are accepted and every other integer is
    refused with the bounds -1 and 0. *)
Theorem resolve_index (c_pow : float -> float)
        (ratio : string -> string -> float)
        (zen_lines : list string) (n : Z) :
  let L := Z.of_nat (List.length zen_lines) in
  (- L <= n <= L - 1 ->
   exists line,
     nth_error zen_lines (Z.to_nat ((n mod L + L) mod L)) = Some line
     /\ resolve c_pow ratio zen_lines (Index n)
        = Return {| title := Line ((n mod L + L) mod L);
                    description := line |})
  /\ (~ (- L <= n <= L - 1) ->
      resolve c_pow ratio zen_lines (Index n)
      = Raise (BadArgument (IndexBetween (- L) (L - 1))))
  /\ (forall only : string,
        zen_lines = [only] ->
        resolve c_pow ratio zen_lines (Index n)
        = if (n =? 0) || (n =? -1)
          then Return {| title := Line 0; description := only |}
          else Raise (BadArgument (IndexBetween (-1) 0))).
Proof.
  intro L.
  assert (Hin : - L <= n <= L - 1 ->
                exists line,
                  nth_error zen_lines (Z.to_nat ((n mod L + L) mod L)) = Some line
                  /\ resolve c_pow ratio zen_lines (Index n)
                     = Return {| title := Line ((n mod L + L) mod L);
                                 description := line |}).
  { intro Hn. simpl. unfold by_index. fold L.
    replace (-1 * L) with (- L) by lia.
    destruct (Z.leb_spec (- L) n); [| lia].
    destruct (Z.leb_spec n (L - 1)); [| lia]. simpl.
    rewrite normalized_index by lia.
    destruct (getitem_in_range zen_lines n Hn) as [x [Hx Hget]].
    exists x. split; [exact Hx |]. rewrite Hget. reflexivity. }
  assert (Hout : ~ (- L <= n <= L - 1) ->
                 resolve c_pow ratio zen_lines (Index n)
                 = Raise (BadArgument (IndexBetween (- L) (L - 1)))).
  { intro Hn. simpl. unfold by_index. fold L.
    replace (-1 * L) with (- L) by lia.
    destruct (Z.leb_spec (- L) n); destruct (Z.leb_spec n (L - 1));
      simpl; try reflexivity. lia. }
  split; [exact Hin | split; [exact Hout |]].
  intros only Hone.
  assert (HL : L = 1) by (unfold L; rewrite Hone; reflexivity).
  destruct (Z.eqb_spec n 0) as [H0 | H0];
    [| destruct (Z.eqb_spec n (-1)) as [H1 | H1]]; simpl orb.
  - subst n. rewrite Hone. reflexivity.
  - subst n. rewrite Hone. reflexivity.
  - rewrite Hout by lia. rewrite HL. reflexivity.
Qed.

(** On the 19 lines of the Zen of Python: -19 is the first line, 19 is
    out of range. *)
Lemma resolve_index_witness :
  (exists line,
      nth_error Utils.zen_lines (Z.to_nat (((-19) mod 19 + 19) mod 19))
      = Some line
      /\ resolve sqrt SequenceMatcher.ratio Utils.zen_lines (Index (-19))
         = Return {| title := Line (((-19) mod 19 + 19) mod 19);
                     description := line |})
  /\ resolve sqrt SequenceMatcher.ratio Utils.zen_lines (Index 19)
     = Raise (BadArgument (IndexBetween (-19) 18)).
Proof.
  split.
  - apply (proj1 (resolve_index sqrt SequenceMatcher.ratio Utils.zen_lines (-19))).
    vm_compute. split; discriminate.
  - apply (proj1 (proj2 (resolve_index sqrt SequenceMatcher.ratio
                                       Utils.zen_lines 19))).
    vm_compute. intros [_ H]. apply H. reflexivity.
Defined.

(** ** Exact whole-word match *)

Lemma has_wordb_spec (s line : string) :
  has_wordb s line = true <-> has_word s line.
Proof.
  unfold has_wordb, has_word. rewrite existsb_exists.
  split; intros [w [Hin Hw]]; exists w; split; auto.
  - apply String.eqb_eq. exact Hw.
  - apply String.eqb_eq. exact Hw.
Qed.

Lemma has_wordb_false (s line : string) :
  has_wordb s line = false <-> ~ has_word s line.
Proof.
  rewrite <- has_wordb_spec. destruct (has_wordb s line); split; congruence.
Qed.

(** What the scan of lines 126-132 finds, started at index [i0]. *)
Lemma exact_word_found (lines : list string) (s : string) :
  forall i0 i line,
    exact_word i0 lines s = Some (i, line) ->
    exists k, i = (i0 + k)%nat
              /\ nth_error lines k = Some line
              /\ has_word s line
              /\ forall j l', (j < k)%nat -> nth_error lines j = Some l' ->
                              ~ has_word s l'.
Proof.
  induction lines as [| l lines IH]; intros i0 i line H; simpl in H.
  - discriminate.
  - fold (has_wordb s l) in H. destruct (has_wordb s l) eqn:Hl.
    + inversion H; subst. exists 0%nat. repeat split.
      * lia.
      * apply has_wordb_spec. exact Hl.
      * intros j l' Hj. lia.
    + destruct (IH _ _ _ H) as [k [Hi [Hk [Hw Hfirst]]]].
      exists (S k). repeat split; auto.
      * lia.
      * intros [| j] l' Hj Hnth; simpl in Hnth.
        -- inversion Hnth; subst. apply has_wordb_false. exact Hl.
        -- apply (Hfirst j l'); [lia | exact Hnth].
Qed.

Lemma exact_word_none (lines : list string) (s : string) :
  forall i0,
    exact_word i0 lines s = None <->
    forall line, In line lines -> ~ has_word s line.
Proof.
  induction lines as [| l lines IH]; intro i0; simpl.
  - split; [intros _ line [] | reflexivity].
  - fold (has_wordb s l). destruct (has_wordb s l) eqn:Hl.
    + split; [discriminate |]. intro H. exfalso.
      apply (H l); [left; reflexivity | apply has_wordb_spec; exact Hl].
    + rewrite IH. split.
      * intros H line [-> | Hin]; [apply has_wordb_false; exact Hl | auto].
      * intros H line Hin. apply H. right. exact Hin.
Qed.

(** C2.  When some line has a word equal to the query up to case,
    [resolve] returns the first such line in corpus order with its index,
    whatever the matcher's ratio is: the similarity is not consulted. *)
Theorem resolve_first_exact_word (zen_lines : list string) (s : string) :
  (exists line, In line zen_lines /\ has_word s line) ->
  exists i line,
    nth_error zen_lines i = Some line
    /\ has_word s line
    /\ (forall j l', (j < i)%nat -> nth_error zen_lines j = Some l' ->
                     ~ has_word s l')
    /\ forall c_pow ratio,
         resolve c_pow ratio zen_lines (Query s)
         = Return {| title := Line (Z.of_nat i); description := line |}.
Proof.
  intros [l0 [Hin Hw]].
  destruct (exact_word 0 zen_lines s) as [[i line] |] eqn:He.
  - destruct (exact_word_found _ _ _ _ _ He) as [k [Hi [Hk [Hwk Hfirst]]]].
    simpl in Hi. subst i.
    exists k, line. repeat split; auto.
    intro ratio. simpl. rewrite He. reflexivity.
  - exfalso. rewrite exact_word_none in He. exact (He l0 Hin Hw).
Qed.

Lemma resolve_first_exact_word_witness :
  exists i line,
    nth_error now_corpus i = Some line
    /\ has_word "now" line
    /\ (forall j l', (j < i)%nat -> nth_error now_corpus j = Some l' ->
                     ~ has_word "now" l')
    /\ forall c_pow ratio,
         resolve c_pow ratio now_corpus (Query "now")
         = Return {| title := Line (Z.of_nat i); description := line |}.
Proof.
  apply (resolve_first_exact_word now_corpus "now").
  exists "now is never"%string. split.
  - left. reflexivity.
  - exists "now"%string. split; [left; reflexivity | reflexivity].
Defined.

Example now_is_line_0 (c_pow : float -> float)
        (ratio : string -> string -> float) :
  resolve c_pow ratio now_corpus (Query "now")
  = Return {| title := Line 0; description := "now is never" |}.
Proof. reflexivity. Qed.

(** ** The loop over the scores *)

Lemma adjusted_ratio_float (c_pow : float -> float)
      (ratio : string -> string -> float)
      (s line : string) :
  5 <= len line ->
  adjusted_ratio c_pow ratio s line
  = Float (float_pow_half c_pow (len line - 5)
           * ratio (lower s) (lower line)).
Proof.
  intro H. unfold adjusted_ratio, pow_half, float_pow_half.
  destruct (Z.ltb_spec (len line - 5) 0); [lia |].
  destruct (len line - 5 =? 0); [reflexivity |].
  destruct (len line - 5 =? 1); reflexivity.
Qed.

Lemma adjusted_ratio_complex (c_pow : float -> float)
      (ratio : string -> string -> float)
      (s line : string) :
  len line < 5 -> adjusted_ratio c_pow ratio s line = Complex.
Proof.
  intro H. unfold adjusted_ratio, pow_half.
  destruct (Z.ltb_spec (len line - 5) 0); [reflexivity | lia].
Qed.

Lemma adjusted_ratio_cases (c_pow : float -> float)
      (ratio : string -> string -> float)
      (s line : string) :
  (5 <= len line /\ exists x, adjusted_ratio c_pow ratio s line = Float x)
  \/ (len line < 5 /\ adjusted_ratio c_pow ratio s line = Complex).
Proof.
  destruct (Z.le_gt_cases 5 (len line)) as [H | H].
  - left. split; [exact H |]. eexists. apply adjusted_ratio_float. exact H.
  - right. split; [lia |]. apply adjusted_ratio_complex. lia.
Qed.

Lemma nth_error_snoc {A : Type} (pre : list A) (x : A) (j : nat) (y : A) :
  nth_error (pre ++ [x]) j = Some y ->
  ((j < List.length pre)%nat /\ nth_error pre j = Some y)
  \/ (j = List.length pre /\ y = x).
Proof.
  intro H. destruct (Nat.lt_ge_cases j (List.length pre)) as [Hj | Hj].
  - left. split; [exact Hj |]. rewrite nth_error_app1 in H; assumption.
  - right. rewrite nth_error_app2 in H by exact Hj.
    destruct (j - List.length pre)%nat as [| d] eqn:Hd; simpl in H.
    + inversion H. split; [lia | reflexivity].
    + destruct d; discriminate.
Qed.

Lemma seen_nil (c_pow : float -> float)
      (ratio : string -> string -> float) (s : string) :
  seen c_pow ratio s [] best_init.
Proof.
  split; [intros line [] |]. left. split; [reflexivity | intros line []].
Qed.

Section BestLoop.

Variable c_pow : float -> float.
Variable ratio : string -> string -> float.
Variable s : string.

(** One turn of the loop keeps [seen]. *)
Lemma seen_step (pre : list string) (line : string) (x : float) (st : best) :
  adjusted_ratio c_pow ratio s line = Float x ->
  seen c_pow ratio s pre st ->
  seen c_pow ratio s (pre ++ [line])
       (if (best_ratio st <? x)%float
        then {| best_match := line; match_index := List.length pre;
                best_ratio := x |}
        else st).
Proof.
  intros Hx [Hfloat Hst]. split.
  { intros l Hl. apply in_app_or in Hl. destruct Hl as [Hl | [<- | []]].
    - apply Hfloat. exact Hl.
    - exists x. exact Hx. }
  destruct (best_ratio st <? x)%float eqn:Hlt.
  - (* the line is kept *)
    right. simpl.
    assert (Hpos : (0 <? x)%float = true).
    { destruct Hst as [[-> _] | [_ [_ [Hb _]]]].
      - exact Hlt.
      - eapply ltb_trans; eauto. }
    split; [| split; [exact Hx | split; [exact Hpos |]]].
    { rewrite nth_error_app2 by lia. rewrite Nat.sub_diag. reflexivity. }
    intros j l y Hj Hy.
    destruct (nth_error_snoc _ _ _ _ Hj) as [[Hjlt Hjpre] | [-> ->]].
    + assert (Hnot : (best_ratio st <? y)%float = false).
      { destruct Hst as [[-> Hnone] | [_ [_ [_ Hall]]]].
        - simpl. destruct (0 <? y)%float eqn:E; [| reflexivity].
          exfalso. apply (Hnone l).
          + eapply nth_error_In; eauto.
          + exists y. split; assumption.
        - apply (Hall j l y Hjpre Hy). }
      destruct (not_above_raise _ _ _ Hnot Hlt) as [H1 H2].
      split; [exact H1 | intros _; exact H2].
    + rewrite Hx in Hy. inversion Hy; subst y.
      split; [apply ltb_irrefl | lia].
  - (* the line is passed over *)
    destruct Hst as [[-> Hnone] | [Hnth [Hbest [Hb Hall]]]].
    + left. split; [reflexivity |].
      intros l Hl. apply in_app_or in Hl. destruct Hl as [Hl | [<- | []]].
      * apply Hnone. exact Hl.
      * intros [y [Hy Hypos]]. rewrite Hx in Hy. inversion Hy; subst y.
        simpl in Hlt. congruence.
    + right.
      assert (Hidx : (match_index st < List.length pre)%nat).
      { apply nth_error_Some. rewrite Hnth. discriminate. }
      split; [| split; [exact Hbest | split; [exact Hb |]]].
      { rewrite nth_error_app1 by exact Hidx. exact Hnth. }
      intros j l y Hj Hy.
      destruct (nth_error_snoc _ _ _ _ Hj) as [[Hjlt Hjpre] | [-> ->]].
      * apply (Hall j l y Hjpre Hy).
      * rewrite Hx in Hy. inversion Hy; subst y.
        split; [exact Hlt | lia].
Qed.

(** The loop, when it ends without raising, leaves [seen] for all the
    lines. *)
Lemma best_loop_seen (lines : list string) :
  forall pre st st',
    best_loop c_pow ratio s (List.length pre) lines st = Return st' ->
    seen c_pow ratio s pre st ->
    seen c_pow ratio s (pre ++ lines) st'.
Proof.
  induction lines as [| line lines IH]; intros pre st st' Hrun Hseen;
    simpl in Hrun.
  - inversion Hrun; subst. rewrite app_nil_r. exact Hseen.
  - destruct (adjusted_ratio c_pow ratio s line) as [x |] eqn:Hx; [| discriminate].
    pose proof (seen_step pre line x st Hx Hseen) as Hstep.
    replace (pre ++ line :: lines)%list with ((pre ++ [line]) ++ lines)%list
      by (rewrite <- app_assoc; reflexivity).
    assert (Hlen : S (List.length pre) = List.length (pre ++ [line])%list)
      by (rewrite length_app; simpl; lia).
    rewrite Hlen in Hrun.
    destruct (best_ratio st <? x)%float; eapply IH; eauto.
Qed.

(** The loop raises exactly when some line has a complex score, and
    then it raises [TypeError]. *)
Lemma best_loop_raise (lines : list string) :
  forall index st e,
    best_loop c_pow ratio s index lines st = Raise e ->
    e = TypeError
    /\ exists line, In line lines /\ adjusted_ratio c_pow ratio s line = Complex.
Proof.
  induction lines as [| line lines IH]; intros index st e Hrun; simpl in Hrun.
  - discriminate.
  - destruct (adjusted_ratio c_pow ratio s line) as [x |] eqn:Hx.
    + assert (Hrest : exists st0,
                 best_loop c_pow ratio s (S index) lines st0 = Raise e)
        by (destruct (best_ratio st <? x)%float; eexists; exact Hrun).
      destruct Hrest as [st0 Hrest].
      destruct (IH _ _ _ Hrest) as [He [l [Hl Hc]]].
      split; [exact He |]. exists l. split; [right; exact Hl | exact Hc].
    + inversion Hrun. split; [reflexivity |].
      exists line. split; [left; reflexivity | exact Hx].
Qed.

Lemma best_loop_returns (lines : list string) :
  (forall line, In line lines ->
                exists x, adjusted_ratio c_pow ratio s line = Float x) ->
  forall index st, exists st', best_loop c_pow ratio s index lines st = Return st'.
Proof.
  induction lines as [| line lines IH]; intros Hall index st; simpl.
  - eexists. reflexivity.
  - destruct (Hall line (or_introl eq_refl)) as [x Hx]. rewrite Hx.
    destruct (best_ratio st <? x)%float; apply IH;
      intros l Hl; apply Hall; right; exact Hl.
Qed.

End BestLoop.

(** The three ways the fuzzy search of lines 134-159 can end. *)
Lemma by_ratio_outcome (c_pow : float -> float)
      (ratio : string -> string -> float)
      (zen_lines : list string) (s : string) :
  ((exists line, In line zen_lines /\ len line < 5)
   /\ by_ratio c_pow ratio zen_lines s = Raise TypeError)
  \/ ((forall line, In line zen_lines -> 5 <= len line)
      /\ (forall line, In line zen_lines -> ~ positive_score c_pow ratio s line)
      /\ by_ratio c_pow ratio zen_lines s = Raise (BadArgument NoMatch))
  \/ ((forall line, In line zen_lines -> 5 <= len line)
      /\ exists st,
          seen c_pow ratio s zen_lines st
          /\ nth_error zen_lines (match_index st) = Some (best_match st)
          /\ adjusted_ratio c_pow ratio s (best_match st) = Float (best_ratio st)
          /\ (0 <? best_ratio st)%float = true
          /\ by_ratio c_pow ratio zen_lines s
             = Return {| title := Line (Z.of_nat (match_index st));
                         description := best_match st |}).
Proof.
  unfold by_ratio.
  destruct (best_loop c_pow ratio s 0 zen_lines best_init) as [st | e] eqn:Hrun.
  - pose proof (best_loop_seen c_pow ratio s zen_lines [] best_init st Hrun
                               (seen_nil c_pow ratio s)) as Hseen.
    simpl in Hseen.
    assert (Hlong : forall line, In line zen_lines -> 5 <= len line).
    { intros line Hin. destruct Hseen as [Hfloat _].
      destruct (Hfloat line Hin) as [x Hx].
      destruct (adjusted_ratio_cases c_pow ratio s line) as [[H _] | [_ H]];
        [exact H | congruence]. }
    destruct Hseen as [Hfloat [[-> Hnone] | [Hnth [Hbest [Hpos Hall]]]]].
    + right. left. repeat split; auto.
    + right. right. split; [exact Hlong |]. exists st.
      split; [split; [exact Hfloat | right; split; [exact Hnth |
                split; [exact Hbest | split; [exact Hpos | exact Hall]]]] |].
      split; [exact Hnth |]. split; [exact Hbest |]. split; [exact Hpos |].
      destruct (best_match st) as [| c rest] eqn:Hm; [| reflexivity].
      exfalso.
      assert (H5 : 5 <= len EmptyString).
      { apply Hlong. eapply nth_error_In. exact Hnth. }
      unfold len in H5. simpl in H5. lia.
  - left. destruct (best_loop_raise c_pow ratio s _ _ _ _ Hrun) as [-> [l [Hl Hc]]].
    split; [| reflexivity]. exists l. split; [exact Hl |].
    destruct (adjusted_ratio_cases c_pow ratio s l) as [[_ [x Hx]] | [H _]];
      [congruence | exact H].
Qed.

(** ** Tie-break of the fuzzy search *)




(** ** The line sent is the line of the index shown *)

(** C8.  Whenever [resolve] returns an embed, by index, by exact word or
    by best ratio, its title shows a line number [i >= 0] and its
    description is the element of the corpus at position [i]. *)
Theorem resolve_index_and_line_agree (c_pow : float -> float)
        (ratio : string -> string -> float)
        (zen_lines : list string) (search_value : search) (e : Embed) :
  resolve c_pow ratio zen_lines search_value = Return e ->
  exists i,
    title e = Line i /\ 0 <= i
    /\ nth_error zen_lines (Z.to_nat i) = Some (description e).
Proof.
  destruct search_value as [n | s]; simpl.
  - unfold by_index. set (L := Z.of_nat (List.length zen_lines)).
    replace (-1 * L) with (- L) by lia.
    destruct (Z.leb_spec (- L) n); [destruct (Z.leb_spec n (L - 1)) |];
      simpl; try discriminate.
    destruct (getitem_in_range zen_lines n) as [x [Hx Hget]]; [fold L; lia |].
    fold L in Hx. rewrite Hget. intro He. inversion He; subst e. simpl.
    exists (n mod L). repeat split; auto.
    apply Z.mod_pos_bound. lia.
  - destruct (exact_word 0 zen_lines s) as [[i line] |] eqn:He.
    + intro H. inversion H; subst e. simpl.
      destruct (exact_word_found _ _ _ _ _ He) as [k [-> [Hk _]]]. simpl.
      exists (Z.of_nat k). rewrite Nat2Z.id. repeat split; auto. lia.
    + destruct (by_ratio_outcome c_pow ratio zen_lines s)
        as [[_ H] | [[_ [_ H]] | [_ [st [_ [Hnth [_ [_ H]]]]]]]];
        rewrite H; try discriminate.
      intro He'. inversion He'; subst e. simpl.
      exists (Z.of_nat (match_index st)). rewrite Nat2Z.id.
      repeat split; auto. lia.
Qed.

Lemma resolve_index_and_line_agree_witness :
  exists i,
    Line 18 = Line i /\ 0 <= i
    /\ nth_error Utils.zen_lines (Z.to_nat i)
       = Some "Namespaces are one honking great idea -- let's do more of those!"%string.
Proof.
  apply (resolve_index_and_line_agree
           sqrt SequenceMatcher.ratio Utils.zen_lines (Index (-1))
           {| title := Line 18;
              description :=
                "Namespaces are one honking great idea -- let's do more of those!" |}).
  vm_compute. reflexivity.
Defined.

(** ** Strings *)

Lemma lower_length (s : string) : String.length (lower s) = String.length s.
Proof. induction s as [| c s IH]; simpl; congruence. Qed.

Lemma chars_length (s : string) : List.length (chars s) = String.length s.
Proof. induction s as [| c s IH]; simpl; congruence. Qed.

Lemma chars_lower (s : string) : chars (lower s) = map lower_char (chars s).
Proof. induction s as [| c s IH]; simpl; [reflexivity |]. f_equal. exact IH. Qed.

Lemma chars_snoc (s : string) (c : ascii) :
  chars (s ++ String c EmptyString) = (chars s ++ [c])%list.
Proof. induction s as [| d s IH]; simpl; [reflexivity |]. f_equal. exact IH. Qed.

Lemma lower_app (s t : string) : lower (s ++ t) = (lower s ++ lower t)%string.
Proof. induction s as [| c s IH]; simpl; [reflexivity |]. f_equal. exact IH. Qed.

Lemma lower_empty (s : string) : lower s = EmptyString -> s = EmptyString.
Proof. destruct s; [reflexivity | discriminate]. Qed.

(** [split] yields no empty word. *)
Lemma split_from_nonempty (s : string) :
  forall word w, In w (split_from word s) -> w <> EmptyString.
Proof.
  induction s as [| c s IH]; intros word w Hin; simpl in Hin.
  - destruct word; [destruct Hin |].
    destruct Hin as [<- | []]. discriminate.
  - destruct (isspace c).
    + destruct word.
      * eapply IH. exact Hin.
      * destruct Hin as [<- | Hin]; [discriminate | eapply IH; exact Hin].
    + eapply IH. exact Hin.
Qed.


Lemma no_word_is_empty (line : string) : ~ has_word EmptyString line.
Proof.
  intros [w [Hin Hw]]. simpl in Hw. apply lower_empty in Hw.
  exact (split_from_nonempty _ _ _ Hin Hw).
Qed.


(** ** The matcher on sequences without a common element *)

Section NoCommonElement.

Variables a b : list ascii.
Hypothesis apart : forall c, In c a -> ~ In c b.

Lemma indices_from_absent (elt : ascii) (s : list ascii) :
  ~ In elt s -> forall j, SequenceMatcher.indices_from j s elt = [].
Proof.
  induction s as [| c s IH]; intros Hnot j; simpl; [reflexivity |].
  destruct (Ascii.eqb_spec c elt) as [-> | _].
  - exfalso. apply Hnot. left. reflexivity.
  - apply IH. intro H. apply Hnot. right. exact H.
Qed.

Lemma b2j_absent (elt : ascii) : In elt a -> SequenceMatcher.b2j b elt = [].
Proof.
  intro H. unfold SequenceMatcher.b2j.
  destruct (SequenceMatcher.popular b elt); [reflexivity |].
  apply indices_from_absent. apply apart. exact H.
Qed.

Lemma scan_rows_apart (rows : list nat) :
  (forall i, In i rows -> (i < List.length a)%nat) ->
  forall blo bhi j2len best,
    SequenceMatcher.scan_rows a b rows blo bhi j2len best = best.
Proof.
  induction rows as [| i rows IH]; intros Hrows blo bhi j2len best; simpl;
    [reflexivity |].
  rewrite b2j_absent.
  - simpl. apply IH. intros k Hk. apply Hrows. right. exact Hk.
  - apply nth_In. apply Hrows. left. reflexivity.
Qed.

Lemma find_longest_match_apart :
  SequenceMatcher.find_longest_match a b 0 (List.length a) 0 (List.length b)
  = {| SequenceMatcher.m_a := 0; SequenceMatcher.m_b := 0;
       SequenceMatcher.m_size := 0 |}.
Proof.
  unfold SequenceMatcher.find_longest_match.
  rewrite scan_rows_apart
    by (intros i Hi; apply in_seq in Hi; lia).
  simpl. rewrite Nat.sub_0_r.
  destruct a as [| c a'] eqn:Ha; [reflexivity |].
  simpl. destruct b as [| d b'] eqn:Hb; [reflexivity |].
  simpl. unfold SequenceMatcher.item. simpl.
  destruct (Ascii.eqb_spec c d) as [-> | _]; [| reflexivity].
  exfalso. apply (apart d); left; reflexivity.
Qed.

Lemma matching_blocks_done (fuel : nat) (blocks : list SequenceMatcher.Match) :
  SequenceMatcher.matching_blocks a b fuel [] blocks = blocks.
Proof. destruct fuel; reflexivity. Qed.

Lemma matches_apart : SequenceMatcher.matches a b = 0%nat.
Proof.
  unfold SequenceMatcher.matches, SequenceMatcher.get_matching_blocks.
  replace (2 * List.length a + 1)%nat with (S (2 * List.length a)) by lia.
  simpl SequenceMatcher.matching_blocks.
  rewrite find_longest_match_apart. simpl.
  rewrite matching_blocks_done. reflexivity.
Qed.

End NoCommonElement.

(** Without a match, the ratio against a sequence that is not empty is a
    zero (or a NaN). *)
Lemma calculate_ratio_no_match (length : nat) :
  (0 < length)%nat ->
  zero_or_nan (SequenceMatcher.calculate_ratio 0 length).
Proof.
  intro H. unfold SequenceMatcher.calculate_ratio.
  destruct (Nat.eqb_spec length 0) as [-> | _]; [lia |].
  apply div_zero_or_nan. exact I.
Qed.

Lemma ratio_no_common_char (s line : string) :
  5 <= len line -> no_common_char s line ->
  zero_or_nan (SequenceMatcher.ratio (lower s) (lower line)).
Proof.
  intros Hlen Hno. unfold SequenceMatcher.ratio.
  fold (chars (lower s)) (chars (lower line)).
  rewrite matches_apart by exact Hno.
  apply calculate_ratio_no_match.
  rewrite !chars_length, !lower_length. unfold len in Hlen. lia.
Qed.

Lemma no_common_char_not_positive (c_pow : float -> float)
      (s line : string) :
  5 <= len line -> no_common_char s line ->
  ~ positive_score c_pow SequenceMatcher.ratio s line.
Proof.
  intros Hlen Hno [x [Hx Hpos]].
  rewrite adjusted_ratio_float in Hx by exact Hlen. inversion Hx; subst x.
  rewrite zero_or_nan_not_positive in Hpos; [discriminate |].
  apply mul_zero_or_nan_r. apply ratio_no_common_char; assumption.
Qed.

Lemma empty_query_no_common_char (line : string) :
  no_common_char EmptyString line.
Proof. intros c []. Qed.

(** ** Failure of the search *)





(** C9.  On a corpus whose lines all have at least 5 characters, the
    empty query raises the "no match" error: [split] yields no empty
    word, and the matcher's ratio of the empty string to a line is 0. *)
Theorem resolve_empty_query (c_pow : float -> float)
        (zen_lines : list string) :
  (forall line, In line zen_lines -> 5 <= len line) ->
  resolve c_pow SequenceMatcher.ratio zen_lines (Query EmptyString)
  = Raise (BadArgument NoMatch).
Proof.
  intro Hlong. simpl.
  assert (He : exact_word 0 zen_lines EmptyString = None)
    by (apply exact_word_none; intros line _; apply no_word_is_empty).
  rewrite He.
  destruct (by_ratio_outcome c_pow SequenceMatcher.ratio zen_lines
                             EmptyString)
    as [[[l [Hl Hshort]] _]
       | [[_ [_ H]] | [_ [st [_ [Hnth [Hbest [Hpos _]]]]]]]].
  - specialize (Hlong l Hl). lia.
  - exact H.
  - exfalso.
    apply (no_common_char_not_positive c_pow EmptyString (best_match st)).
    + apply Hlong. eapply nth_error_In. exact Hnth.
    + apply empty_query_no_common_char.
    + exists (best_ratio st). split; assumption.
Qed.

Lemma zen_lines_long : forall line, In line Utils.zen_lines -> 5 <= len line.
Proof.
  assert (H : forallb (fun line => 5 <=? len line) Utils.zen_lines = true)
    by (vm_compute; reflexivity).
  rewrite forallb_forall in H. intros line Hin. apply Z.leb_le. apply H.
  exact Hin.
Qed.

(** On the Zen of Python itself. *)
Lemma resolve_empty_query_witness :
  resolve sqrt SequenceMatcher.ratio Utils.zen_lines (Query EmptyString)
  = Raise (BadArgument NoMatch).
Proof.
  apply (resolve_empty_query sqrt Utils.zen_lines). exact zen_lines_long.
Defined.

(** ** The adjusted score *)

Lemma five_chars_not_positive (c_pow : float -> float)
      (ratio : string -> string -> float)
      (s line : string) :
  len line = 5 -> ~ positive_score c_pow ratio s line.
Proof.
  intros H5 [x [Hx Hpos]].
  rewrite adjusted_ratio_float in Hx by lia. rewrite H5 in Hx.
  inversion Hx; subst x.
  rewrite zero_or_nan_not_positive in Hpos; [discriminate |].
  apply mul_zero_or_nan_l. exact I.
Qed.

(** C1 (as amended).  For a line of at least 5 characters the adjusted
    score is [sqrt(max(len(line) - 5, 0))] times the ratio of the
    lowercased query and the lowercased line, when the line has 5 or 6
    characters and whenever the [pow] of the C library returns the
    correctly rounded root of [len(line) - 5]; for a line of exactly 5
    characters it is not above 0 whatever the ratio. *)
Theorem adjusted_ratio_formula (c_pow : float -> float)
        (ratio : string -> string -> float)
        (s line : string) :
  5 <= len line ->
  (len line <= 6
   \/ c_pow (float_of_int (len line - 5)) = sqrt (float_of_int (len line - 5)) ->
   adjusted_ratio c_pow ratio s line
   = Float (spec_adjusted_score ratio s line))
  /\ (len line = 5 -> ~ positive_score c_pow ratio s line).
Proof.
  intro Hlong. split; [| apply five_chars_not_positive].
  intro Hroot. rewrite adjusted_ratio_float by exact Hlong.
  unfold spec_adjusted_score, float_pow_half.
  rewrite Z.max_l by lia.
  destruct (Z.eqb_spec (len line - 5) 0) as [-> | H0]; [reflexivity |].
  destruct (Z.eqb_spec (len line - 5) 1) as [-> | H1]; [reflexivity |].
  destruct Hroot as [Hshort | ->]; [lia | reflexivity].
Qed.

(** The line "Readability counts." of 19 characters, with a [pow] that
    rounds correctly. *)
Lemma adjusted_ratio_formula_witness :
  adjusted_ratio sqrt SequenceMatcher.ratio "count" "Readability counts."
  = Float (spec_adjusted_score SequenceMatcher.ratio "count"
                               "Readability counts.").
Proof.
  refine (proj1 (adjusted_ratio_formula sqrt SequenceMatcher.ratio "count"
                   "Readability counts." _) _).
  - vm_compute. discriminate.
  - right. reflexivity.
Defined.

(** The claim as the specification words it, for every line shorter than
    5 characters, fails on the line "abc" and the query "a": the formula
    of the specification gives 0, and the score the code computes is no
    float at all, so that the search over this line ends in an error. *)
Lemma adjusted_ratio_counterexample :
  spec_adjusted_score SequenceMatcher.ratio "a" "abc" = 0%float
  /\ adjusted_ratio sqrt SequenceMatcher.ratio "a" "abc" = Complex
  /\ resolve sqrt SequenceMatcher.ratio ["abc"%string] (Query "a")
     = Raise TypeError.
Proof. repeat split. Qed.

(** ** Ties *)

(** C4 (as amended).  On the corpus of the two lines "aaaaa" and "bbbbb",
    a query that is neither of them as a word raises the "no match"
    error: both lines have 5 characters, so both scores are 0 and neither
    is above 0.  The first of two tied lines is returned when the tie is
    above 0, as on "aaaaaa" and "bbbbbb" with the query "ab". *)
Theorem resolve_tie (c_pow : float -> float)
        (ratio : string -> string -> float) (s : string) :
  (lower s <> "aaaaa"%string -> lower s <> "bbbbb"%string ->
   resolve c_pow ratio ["aaaaa"; "bbbbb"]%string (Query s)
   = Raise (BadArgument NoMatch))
  /\ adjusted_ratio c_pow SequenceMatcher.ratio "ab" "aaaaaa"
     = adjusted_ratio c_pow SequenceMatcher.ratio "ab" "bbbbbb"
  /\ resolve c_pow SequenceMatcher.ratio ["aaaaaa"; "bbbbbb"]%string (Query "ab")
     = Return {| title := Line 0; description := "aaaaaa" |}.
Proof.
  split; [| split; vm_compute; reflexivity].
  intros Ha Hb. unfold resolve.
  assert (He : exact_word 0 ["aaaaa"; "bbbbb"]%string s = None).
  { apply exact_word_none.
    intros line [<- | [<- | []]] [w [[<- | []] Hw]];
      [apply Ha | apply Hb]; symmetry; exact Hw. }
  rewrite He.
  destruct (by_ratio_outcome c_pow ratio ["aaaaa"; "bbbbb"]%string s)
    as [[[l [Hl Hshort]] _]
       | [[_ [_ H]] | [_ [st [_ [Hnth [Hbest [Hpos _]]]]]]]].
  - destruct Hl as [<- | [<- | []]]; vm_compute in Hshort; discriminate.
  - exact H.
  - exfalso. apply (five_chars_not_positive c_pow ratio s (best_match st)).
    + apply nth_error_In in Hnth.
      destruct Hnth as [<- | [<- | []]]; reflexivity.
    + exists (best_ratio st). split; assumption.
Qed.

Lemma resolve_tie_witness :
  resolve sqrt SequenceMatcher.ratio ["aaaaa"; "bbbbb"]%string (Query "ba")
  = Raise (BadArgument NoMatch).
Proof.
  apply (proj1 (resolve_tie sqrt SequenceMatcher.ratio "ba")); discriminate.
Defined.

(** The claim as the specification words it fails for the query "ab": no
    word matches, the two scores are equal, and no line is returned. *)
Lemma resolve_tie_counterexample :
  exact_word 0 ["aaaaa"; "bbbbb"]%string "ab" = None
  /\ adjusted_ratio sqrt SequenceMatcher.ratio "ab" "aaaaa"
     = adjusted_ratio sqrt SequenceMatcher.ratio "ab" "bbbbb"
  /\ resolve sqrt SequenceMatcher.ratio ["aaaaa"; "bbbbb"]%string (Query "ab")
     = Raise (BadArgument NoMatch).
Proof. vm_compute. repeat split. Qed.

(** ** Case of the query *)

Lemma resolve_lower_eq (c_pow : float -> float)
      (ratio : string -> string -> float)
      (zen_lines : list string) (s t : string) :
  lower s = lower t ->
  resolve c_pow ratio zen_lines (Query s) = resolve c_pow ratio zen_lines (Query t).
Proof.
  intro H. simpl.
  assert (He : forall lines i, exact_word i lines s = exact_word i lines t).
  { induction lines as [| l lines IH]; intro i; simpl; [reflexivity |].
    rewrite H, IH. reflexivity. }
  assert (Hb : forall lines i st,
             best_loop c_pow ratio s i lines st = best_loop c_pow ratio t i lines st).
  { induction lines as [| l lines IH]; intros i st; simpl; [reflexivity |].
    unfold adjusted_ratio. rewrite H.
    destruct (mul (pow_half c_pow (len l - 5)) (ratio (lower t) (lower l)));
      [| reflexivity].
    rewrite !IH. reflexivity. }
  rewrite He. unfold by_ratio. rewrite Hb. reflexivity.
Qed.

(** Raising one character and lowering the result gives the lowercase
    of the character, for every character but U+00DF: read off the 256
    cases.  A capital outside the range is the code point of no [ascii]. *)
Lemma lower_upper_char_checked (c : ascii) :
  (Ascii.eqb c eszett
   || match upper_char c with
      | [m] =>
          (256 <=? m)%N
          || Ascii.eqb (lower_char (ascii_of_N m)) (lower_char c)
      | _ => false
      end) = true.
Proof.
  destruct c as [[|] [|] [|] [|] [|] [|] [|] [|]]; vm_compute; reflexivity.
Qed.

Lemma lower_upper_char (c d : ascii) (rest : list N) :
  c <> eszett -> upper_char c = (ord d :: rest)%list ->
  rest = [] /\ lower_char d = lower_char c.
Proof.
  intros Hne Hu. pose proof (lower_upper_char_checked c) as H.
  rewrite Hu in H. apply orb_true_iff in H. destruct H as [H | H].
  - apply Ascii.eqb_eq in H. contradiction.
  - destruct rest; [| discriminate]. split; [reflexivity |].
    apply orb_true_iff in H. destruct H as [H | H].
    + apply N.leb_le in H. pose proof (N_ascii_bounded d). unfold ord in H.
      lia.
    + apply Ascii.eqb_eq in H. unfold ord in H.
      rewrite ascii_N_embedding in H. exact H.
Qed.

Lemma upper_char_nonempty (c : ascii) : upper_char c <> [].
Proof.
  unfold upper_char.
  repeat match goal with |- context [if ?b then _ else _] => destruct b end;
    discriminate.
Qed.

(** The uppercase of a query without U+00DF, when it is a string of the
    range, has the lowercase of the query. *)
Lemma lower_upper (s : string) :
  forall u, upper s = points u -> ~ In eszett (chars s) -> lower u = lower s.
Proof.
  induction s as [| c s IH]; intros u Hu Hno; simpl in Hu.
  - destruct u; [reflexivity | discriminate].
  - destruct u as [| d u]; simpl in Hu.
    + apply app_eq_nil in Hu. destruct Hu as [Hc _].
      exfalso. exact (upper_char_nonempty c Hc).
    + destruct (upper_char c) as [| m rest] eqn:Hc;
        [exfalso; exact (upper_char_nonempty c Hc) |].
      simpl in Hu. injection Hu as Hm Hrest. subst m.
      destruct (lower_upper_char c d rest) as [-> Hd].
      * intro H. apply Hno. left. exact H.
      * exact Hc.
      * simpl in Hrest. simpl. rewrite Hd. f_equal. apply IH.
        -- exact Hrest.
        -- intro H. apply Hno. right. exact H.
Qed.

(** C7 (as amended).  [resolve] reads of a query its lowercase only: a
    query [u] with the lowercase of the query [s] is answered as [s] is.
    The uppercase of [s] is such a [u] when [s] has no U+00DF, the one
    letter of the range whose capital, SS, is lowered to other letters
    than the letter it came from. *)
Theorem resolve_upper (c_pow : float -> float)
        (ratio : string -> string -> float)
        (zen_lines : list string) (s u : string) :
  lower u = lower s \/ (upper s = points u /\ ~ In eszett (chars s)) ->
  resolve c_pow ratio zen_lines (Query u)
  = resolve c_pow ratio zen_lines (Query s).
Proof.
  intros [H | [Hu Hno]]; apply resolve_lower_eq;
    [exact H | apply lower_upper; assumption].
Qed.

(** "NOW" is the uppercase of "now". *)
Lemma resolve_upper_witness :
  resolve sqrt SequenceMatcher.ratio Utils.zen_lines (Query "NOW")
  = resolve sqrt SequenceMatcher.ratio Utils.zen_lines (Query "now").
Proof.
  apply (resolve_upper sqrt SequenceMatcher.ratio Utils.zen_lines
                       "now" "NOW").
  right. split; [reflexivity |].
  simpl. unfold eszett. intuition discriminate.
Defined.

(** "NOW" and "now", on every corpus. *)
Example NOW_and_now (c_pow : float -> float)
        (ratio : string -> string -> float)
        (zen_lines : list string) :
  resolve c_pow ratio zen_lines (Query "NOW")
  = resolve c_pow ratio zen_lines (Query "now").
Proof. apply resolve_lower_eq. reflexivity. Qed.

(** The claim as the specification words it fails for the query U+00DF,
    whose uppercase is "SS": on the Zen of Python the first finds no
    match and the second is answered with line 4. *)
Lemma resolve_upper_counterexample :
  upper (String eszett EmptyString) = points "SS"
  /\ resolve sqrt SequenceMatcher.ratio Utils.zen_lines
             (Query (String eszett EmptyString))
     = Raise (BadArgument NoMatch)
  /\ resolve sqrt SequenceMatcher.ratio Utils.zen_lines (Query "SS")
     = Return {| title := Line 4;
                 description := "Flat is better than nested." |}.
Proof. vm_compute. repeat split. Qed.

(** ** The matcher's work list runs out within its fuel *)

Section EnoughFuel.

Import SequenceMatcher.
Local Open Scope nat_scope.

Variables a b : list ascii.

Lemma get_pred_bound (d : dict) (bound j : nat) :
  (forall key, get d key <= bound) -> get_pred d j <= bound.
Proof. intro H. destruct j; simpl; [lia | apply H]. Qed.

Lemma scan_row_within (alo ahi i blo bhi : nat) (j2len : dict) :
  alo <= i -> i < ahi ->
  (forall key, get j2len key <= i - alo) ->
  forall js newj2len best,
    (forall key, get newj2len key <= i + 1 - alo) ->
    within alo ahi best ->
    (forall key,
        get (fst (scan_row js i blo bhi j2len newj2len best)) key
        <= i + 1 - alo)
    /\ within alo ahi (snd (scan_row js i blo bhi j2len newj2len best)).
Proof.
  intros Hlo Hhi Hold.
  induction js as [| j js IH]; intros newj2len best Hnew Hbest; simpl.
  - split; assumption.
  - destruct (j <? blo); [apply IH; assumption |].
    destruct (bhi <=? j); [split; assumption |].
    pose proof (get_pred_bound j2len (i - alo) j Hold) as Hk.
    apply IH.
    + intro key. simpl. destruct (j =? key); [lia | apply Hnew].
    + destruct (m_size best <? get_pred j2len j + 1); [| exact Hbest].
      split; simpl; lia.
Qed.

Lemma scan_rows_within (alo ahi blo bhi : nat) (n : nat) :
  forall i j2len best,
    alo <= i -> i + n <= ahi ->
    (forall key, get j2len key <= i - alo) ->
    within alo ahi best ->
    within alo ahi (scan_rows a b (seq i n) blo bhi j2len best).
Proof.
  induction n as [| n IH]; intros i j2len best Hlo Hhi Hold Hbest; simpl.
  - exact Hbest.
  - destruct (scan_row_within alo ahi i blo bhi j2len Hlo ltac:(lia) Hold
                (b2j b (item a i)) [] best) as [Hd Hb];
      [intro key; simpl; lia | exact Hbest |].
    destruct (scan_row (b2j b (item a i)) i blo bhi j2len [] best)
      as [newj2len best'].
    simpl in Hd, Hb.
    apply IH; try lia; try assumption.
    intro key. specialize (Hd key). lia.
Qed.

Lemma extend_left_within (alo ahi blo : nat) (room : nat) :
  forall best,
    room <= m_a best - alo -> within alo ahi best ->
    within alo ahi (extend_left a b room blo best).
Proof.
  induction room as [| room IH]; intros best Hroom [Hlo Hhi]; simpl.
  - split; assumption.
  - destruct ((blo <? m_b best)
              && Ascii.eqb (item a (m_a best - 1)) (item b (m_b best - 1))).
    + apply IH; [simpl; lia | split; simpl; lia].
    + split; assumption.
Qed.

Lemma extend_right_within (alo ahi bhi : nat) (room : nat) :
  forall best,
    m_a best + m_size best + room <= ahi -> alo <= m_a best ->
    within alo ahi (extend_right a b room bhi best).
Proof.
  induction room as [| room IH]; intros best Hroom Hlo; simpl.
  - split; [exact Hlo | lia].
  - destruct ((m_b best + m_size best <? bhi)
              && Ascii.eqb (item a (m_a best + m_size best))
                           (item b (m_b best + m_size best))).
    + apply IH; simpl; lia.
    + split; [exact Hlo | lia].
Qed.

(** The longest match found in [alo, ahi) lies in it. *)
Lemma find_longest_match_within (alo ahi blo bhi : nat) :
  alo <= ahi -> within alo ahi (find_longest_match a b alo ahi blo bhi).
Proof.
  intro H. unfold find_longest_match.
  set (best1 := scan_rows a b (seq alo (ahi - alo)) blo bhi []
                          {| m_a := alo; m_b := blo; m_size := 0 |}).
  assert (H1 : within alo ahi best1).
  { apply scan_rows_within; try lia.
    - intro key. simpl. lia.
    - split; simpl; lia. }
  set (best2 := extend_left a b (m_a best1 - alo) blo best1).
  assert (H2 : within alo ahi best2)
    by (apply extend_left_within; [lia | exact H1]).
  destruct H2 as [H2lo H2hi].
  apply extend_right_within; lia.
Qed.

Lemma weight_positive (queue : list (nat * nat * nat * nat)) :
  weight queue = 0 -> queue = [].
Proof.
  destruct queue as [| [[[alo ahi] blo] bhi] queue]; simpl;
    [reflexivity | lia].
Qed.

(** With fuel for the weight of the work list, more fuel changes
    nothing: the list is empty before the fuel is. *)
Lemma matching_blocks_fuel (extra : nat) :
  forall fuel queue blocks,
    ordered queue -> weight queue <= fuel ->
    matching_blocks a b (fuel + extra) queue blocks
    = matching_blocks a b fuel queue blocks.
Proof.
  induction fuel as [| fuel IH]; intros queue blocks Hord Hw.
  - assert (queue = []) by (apply weight_positive; lia). subst queue.
    destruct extra; reflexivity.
  - destruct queue as [| [[[alo ahi] blo] bhi] queue]; [reflexivity |].
    destruct Hord as [Hle Hord]. simpl in Hw.
    change (S fuel + extra) with (S (fuel + extra)).
    cbn [matching_blocks].
    pose proof (find_longest_match_within alo ahi blo bhi Hle) as [Hlo Hhi].
    set (x := find_longest_match a b alo ahi blo bhi) in *.
    destruct (Nat.eqb_spec (m_size x) 0) as [Hk | Hk].
    + apply IH; [exact Hord | lia].
    + apply IH.
      * destruct ((m_a x + m_size x <? ahi) && (m_b x + m_size x <? bhi));
          destruct ((alo <? m_a x) && (blo <? m_b x));
          simpl; repeat split; try assumption; lia.
      * destruct (Nat.ltb_spec (m_a x + m_size x) ahi);
          destruct (m_b x + m_size x <? bhi);
          destruct (Nat.ltb_spec alo (m_a x));
          destruct (blo <? m_b x);
          simpl; lia.
Qed.

(** [get_matching_blocks] is the loop run to its end: no amount of fuel
    above [2 * len(a) + 1] finds another block. *)
Lemma get_matching_blocks_enough_fuel (extra : nat) :
  matching_blocks a b (2 * List.length a + 1 + extra)
                  [(0, List.length a, 0, List.length b)] []
  = get_matching_blocks a b.
Proof.
  unfold get_matching_blocks. apply matching_blocks_fuel.
  - simpl. split; [lia | exact I].
  - simpl. lia.
Qed.

End EnoughFuel.

(** * Properties beyond the specification *)


(** ** More on [zen] *)

(** X1.  [resolve] raises nothing but [BadArgument] and [TypeError],
    never [IndexError]: an index out of range is refused with the bounds
    before the list is indexed, and [TypeError] comes only from a query
    on a corpus with a line shorter than 5 characters. *)
Theorem resolve_raises (c_pow : float -> float)
        (ratio : string -> string -> float)
        (zen_lines : list string) (search_value : search) (e : exception) :
  resolve c_pow ratio zen_lines search_value = Raise e ->
  match e with
  | BadArgument (IndexBetween lower_bound upper_bound) =>
      exists n,
        search_value = Index n
        /\ lower_bound = - Z.of_nat (List.length zen_lines)
        /\ upper_bound = Z.of_nat (List.length zen_lines) - 1
        /\ ~ (lower_bound <= n <= upper_bound)
  | BadArgument NoMatch => exists s, search_value = Query s
  | TypeError =>
      exists s,
        search_value = Query s
        /\ exists line, In line zen_lines /\ len line < 5
  | IndexError => False
  end.
Proof.
  destruct search_value as [n | s]; simpl.
  - unfold by_index. set (L := Z.of_nat (List.length zen_lines)).
    replace (-1 * L) with (- L) by lia.
    destruct (Z.leb_spec (- L) n) as [Hlo | Hlo];
      [destruct (Z.leb_spec n (L - 1)) as [Hhi | Hhi] |]; simpl.
    + destruct (getitem_in_range zen_lines n) as [x [_ Hget]]; [fold L; lia |].
      rewrite Hget. discriminate.
    + intro He. inversion He. exists n. repeat split; lia.
    + intro He. inversion He. exists n. repeat split; lia.
  - destruct (exact_word 0 zen_lines s) as [[i line] |]; [discriminate |].
    destruct (by_ratio_outcome c_pow ratio zen_lines s)
      as [[Hshort H] | [[_ [_ H]] | [_ [st [_ [_ [_ [_ H]]]]]]]];
      rewrite H; intro He; inversion He; subst e.
    + exists s. split; [reflexivity | exact Hshort].
    + exists s. reflexivity.
Qed.

Lemma resolve_raises_witness :
  exists s,
    Query "x" = Query s
    /\ exists line, In line ["abc"%string] /\ len line < 5.
Proof.
  apply (resolve_raises sqrt SequenceMatcher.ratio ["abc"%string] (Query "x")
                        TypeError).
  reflexivity.
Defined.

(** What [resolve] raises is a [BadArgument], or a [TypeError] on a
    corpus with a line shorter than 5 characters. *)
Lemma resolve_raise_cases (c_pow : float -> float)
      (ratio : string -> string -> float)
      (zen_lines : list string) (search_value : search) (e : exception) :
  resolve c_pow ratio zen_lines search_value = Raise e ->
  (exists m, e = BadArgument m)
  \/ (e = TypeError /\ exists line, In line zen_lines /\ len line < 5).
Proof.
  destruct search_value as [n | s]; simpl.
  - unfold by_index. set (L := Z.of_nat (List.length zen_lines)).
    replace (-1 * L) with (- L) by lia.
    destruct (Z.leb_spec (- L) n) as [Hlo | Hlo];
      [destruct (Z.leb_spec n (L - 1)) as [Hhi | Hhi] |]; simpl.
    + destruct (getitem_in_range zen_lines n) as [x [_ Hget]]; [fold L; lia |].
      rewrite Hget. discriminate.
    + intro He. inversion He. left. eexists. reflexivity.
    + intro He. inversion He. left. eexists. reflexivity.
  - destruct (exact_word 0 zen_lines s) as [[i line] |]; [discriminate |].
    destruct (by_ratio_outcome c_pow ratio zen_lines s)
      as [[Hshort H] | [[_ [_ H]] | [_ [st [_ [_ [_ [_ H]]]]]]]];
      rewrite H; intro He; inversion He; subst e.
    + right. split; [reflexivity | exact Hshort].
    + left. eexists. reflexivity.
Qed.

Lemma splitlines_ZEN_OF_PYTHON : splitlines ZEN_OF_PYTHON = Utils.zen_lines.
Proof. unfold Utils.zen_lines. reflexivity. Qed.

(** X2.  On the text of [ZEN_OF_PYTHON] as deployed, whatever the
    argument and the matcher, the command either sends one embed, or
    raises [BadArgument] and sends nothing: its shortest line has 19
    characters, so no score is complex. *)
Theorem zen_deployed_never_type_error (c_pow : float -> float)
        (ratio : string -> string -> float)
        (search_value : option search) (sent : list Embed) :
  let w := {| zen_of_python := ZEN_OF_PYTHON; channel := sent |} in
  (fst (zen c_pow ratio search_value w) = Return tt
   /\ exists embed,
       snd (zen c_pow ratio search_value w)
       = {| zen_of_python := ZEN_OF_PYTHON;
            channel := (sent ++ [embed])%list |})
  \/ (exists m, fst (zen c_pow ratio search_value w) = Raise (BadArgument m)
                /\ snd (zen c_pow ratio search_value w) = w).
Proof.
  intro w. unfold zen, zen_embed. cbn [zen_of_python w].
  destruct search_value as [v |].
  - rewrite splitlines_ZEN_OF_PYTHON.
    destruct (resolve c_pow ratio Utils.zen_lines v) as [embed | e] eqn:Hres.
    + left. split; [reflexivity |]. exists embed. reflexivity.
    + right.
      destruct (resolve_raise_cases c_pow ratio Utils.zen_lines v e Hres)
        as [[m ->] | [_ [l [Hl Hshort]]]].
      * exists m. split; reflexivity.
      * pose proof (zen_lines_long l Hl). lia.
  - left. split; [reflexivity |]. eexists. reflexivity.
Qed.

Lemma isspace_lower_char (c : ascii) : isspace (lower_char c) = isspace c.
Proof.
  destruct c as [[|] [|] [|] [|] [|] [|] [|] [|]]; vm_compute; reflexivity.
Qed.

(** A word of [split] has no whitespace in it. *)
Lemma split_from_no_space (s : string) :
  forall word w c,
    (forall d, In d (chars word) -> isspace d = false) ->
    In w (split_from word s) -> In c (chars w) -> isspace c = false.
Proof.
  induction s as [| d s IH]; intros word w c Hword Hin Hc; simpl in Hin.
  - destruct word; [destruct Hin |].
    destruct Hin as [<- | []]. apply Hword. exact Hc.
  - destruct (isspace d) eqn:Hd.
    + destruct word.
      * apply (IH EmptyString w c); [intros x [] | exact Hin | exact Hc].
      * destruct Hin as [<- | Hin]; [apply Hword; exact Hc |].
        apply (IH EmptyString w c); [intros x [] | exact Hin | exact Hc].
    + apply (IH _ w c) in Hin; [exact Hin | | exact Hc].
      intros x Hx. rewrite chars_snoc in Hx. apply in_app_or in Hx.
      destruct Hx as [Hx | [<- | []]]; [apply Hword; exact Hx | exact Hd].
Qed.

(** X3.  A query with whitespace in it, such as one of several words,
    is never found as a word of a line: it is always answered by the
    search on ratios. *)
Theorem resolve_query_with_space (c_pow : float -> float)
        (ratio : string -> string -> float)
        (zen_lines : list string) (s : string) :
  (exists c, In c (chars s) /\ isspace c = true) ->
  (forall line, ~ has_word s line)
  /\ resolve c_pow ratio zen_lines (Query s) = by_ratio c_pow ratio zen_lines s.
Proof.
  intros [c [Hc Hspace]].
  assert (Hno : forall line, ~ has_word s line).
  { intros line [w [Hin Hw]].
    assert (Hlc : In (lower_char c) (chars (lower w))).
    { rewrite Hw, chars_lower. apply in_map. exact Hc. }
    rewrite chars_lower in Hlc. apply in_map_iff in Hlc.
    destruct Hlc as [d [Hd Hdw]].
    assert (Hds : isspace d = false).
    { apply (split_from_no_space line EmptyString w d);
        [intros x [] | exact Hin | exact Hdw]. }
    rewrite <- isspace_lower_char, Hd, isspace_lower_char in Hds.
    congruence. }
  split; [exact Hno |]. simpl.
  assert (He : exact_word 0 zen_lines s = None)
    by (apply exact_word_none; intros line _; apply Hno).
  rewrite He. reflexivity.
Qed.

Lemma resolve_query_with_space_witness :
  (forall line, ~ has_word "better than" line)
  /\ resolve sqrt SequenceMatcher.ratio Utils.zen_lines (Query "better than")
     = by_ratio sqrt SequenceMatcher.ratio Utils.zen_lines "better than".
Proof.
  apply (resolve_query_with_space sqrt SequenceMatcher.ratio Utils.zen_lines
                                  "better than").
  exists " "%char. split; [| reflexivity].
  simpl. intuition.
Defined.


(** * Properties of the other commands *)

(** ** Hexadecimal digits *)

Import Text.

Lemma hex_value_digit (d : N) : (d < 16)%N -> hex_value (hex_digit d) = d.
Proof.
  intro H. unfold hex_value, hex_digit.
  destruct (N.ltb_spec d 10).
  - destruct (N.leb_spec 48 (48 + d)); [| lia].
    destruct (N.leb_spec (48 + d) 57); [| lia]. cbn [andb]. lia.
  - destruct (N.leb_spec 48 (87 + d)); [| lia].
    destruct (N.leb_spec (87 + d) 57); [lia |]. cbn [andb].
    destruct (N.leb_spec 97 (87 + d)); [| lia].
    destruct (N.leb_spec (87 + d) 102); [| lia]. cbn [andb]. lia.
Qed.

Lemma hex_value_bound (c : N) : (hex_value c < 16)%N.
Proof.
  unfold hex_value.
  destruct (N.leb_spec 48 c); destruct (N.leb_spec c 57); cbn [andb]; try lia;
    destruct (N.leb_spec 97 c); destruct (N.leb_spec c 102); cbn [andb]; lia.
Qed.

Lemma hex_from_value (fuel : nat) :
  forall n digits,
    (n < 2 ^ N.of_nat fuel)%N ->
    value_from 0 (hex_from fuel n digits) = value_from n digits.
Proof.
  induction fuel as [| fuel IH]; intros n digits Hn.
  - simpl in *. assert (n = 0%N) by lia. subst. reflexivity.
  - cbn [hex_from]. destruct (N.eqb_spec n 0) as [-> | Hnz]; [reflexivity |].
    rewrite IH.
    + unfold value_from. cbn [fold_left].
      rewrite hex_value_digit by (apply N.mod_lt; lia).
      f_equal. symmetry. apply N.div_mod. lia.
    + rewrite Nat2N.inj_succ, N.pow_succ_r' in Hn.
      apply N.Div0.div_lt_upper_bound. lia.
Qed.

(** Reading back the digits of a number gives the number. *)
Lemma of_hex_hex (n : N) : of_hex (hex n) = n.
Proof.
  unfold hex. destruct (N.eqb_spec n 0) as [-> | Hnz]; [reflexivity |].
  change (value_from 0 (hex_from (N.to_nat (N.size n)) n []) = n).
  rewrite hex_from_value; [reflexivity |].
  rewrite N2Nat.id. destruct n as [| p]; [lia |]. apply N.size_gt.
Qed.

Lemma value_from_bound (s : str) :
  forall v, (value_from v s < (v + 1) * 16 ^ N.of_nat (List.length s))%N.
Proof.
  induction s as [| c s IH]; intro v.
  - simpl. lia.
  - unfold value_from. cbn [fold_left]. fold (value_from (16 * v + hex_value c) s).
    specialize (IH (16 * v + hex_value c)%N).
    pose proof (hex_value_bound c).
    cbn [List.length]. rewrite Nat2N.inj_succ, N.pow_succ_r'. nia.
Qed.

Lemma hex_from_length (fuel : nat) :
  forall k n digits,
    (n < 16 ^ N.of_nat k)%N ->
    (List.length (hex_from fuel n digits) <= k + List.length digits)%nat.
Proof.
  induction fuel as [| fuel IH]; intros k n digits Hn; cbn [hex_from].
  - lia.
  - destruct (N.eqb_spec n 0) as [-> | Hnz]; [lia |].
    destruct k as [| k]; [simpl in Hn; lia |].
    rewrite Nat2N.inj_succ, N.pow_succ_r' in Hn.
    specialize (IH k (n / 16)%N (hex_digit (n mod 16) :: digits)).
    cbn [List.length] in IH.
    assert (n / 16 < 16 ^ N.of_nat k)%N
      by (apply N.Div0.div_lt_upper_bound; lia).
    specialize (IH H). lia.
Qed.

(** A number below [16^k] has at most [k] digits, and one with at most
    [k] digits is below [16^k]. *)
Lemma hex_length (n : N) (k : nat) :
  (1 <= k)%nat ->
  ((List.length (hex n) <= k)%nat <-> (n < 16 ^ N.of_nat k)%N).
Proof.
  intro Hk. split.
  - intro Hlen. rewrite <- (of_hex_hex n) at 1.
    pose proof (value_from_bound (hex n) 0) as Hb.
    change (value_from 0 (hex n)) with (of_hex (hex n)) in Hb.
    assert (16 ^ N.of_nat (List.length (hex n)) <= 16 ^ N.of_nat k)%N
      by (apply N.pow_le_mono_r; lia).
    lia.
  - intro Hn. unfold hex. destruct (N.eqb_spec n 0); [simpl; lia |].
    pose proof (hex_from_length (N.to_nat (N.size n)) k n [] Hn).
    simpl in H. lia.
Qed.

Lemma hex_nonempty (n : N) : (1 <= List.length (hex n))%nat.
Proof.
  destruct (Nat.le_gt_cases 1 (List.length (hex n))) as [H | H]; [exact H |].
  exfalso. assert (Hl : List.length (hex n) = 0%nat) by lia.
  pose proof (of_hex_hex n) as Hr.
  destruct (hex n) eqn:E; [| discriminate].
  unfold of_hex in Hr. simpl in Hr. subst n. discriminate.
Qed.

Lemma of_hex_zeros (k : nat) (s : str) : of_hex (repeat 48%N k ++ s) = of_hex s.
Proof.
  unfold of_hex. rewrite fold_left_app.
  replace (fold_left (fun v c => (16 * v + hex_value c)%N) (repeat 48%N k) 0%N)
    with 0%N; [reflexivity |].
  induction k as [| k IH]; [reflexivity | simpl; exact IH].
Qed.

Lemma rjust_length (width : nat) (fill : N) (s : str) :
  List.length (rjust width fill s) = Nat.max width (List.length s).
Proof. unfold rjust. rewrite length_app, repeat_length. lia. Qed.

Lemma ljust_length (width : nat) (s : str) :
  List.length (ljust width s) = Nat.max width (List.length s).
Proof. unfold ljust. rewrite length_app, repeat_length. lia. Qed.

(** ** The pattern of a custom emoji *)

Lemma plus_spec (class : N -> bool) (k : str -> bool) (s : str) :
  Re.plus class k s = true
  <-> exists run rest,
        s = (run ++ rest)%list /\ run <> [] /\ forallb class run = true
        /\ k rest = true.
Proof.
  split.
  - induction s as [| c s IH]; simpl; [discriminate |].
    intro H. apply andb_true_iff in H. destruct H as [Hc H].
    apply orb_true_iff in H. destruct H as [H | H].
    + destruct (IH H) as [run [rest [-> [_ [Hrun Hk]]]]].
      exists (c :: run), rest. repeat split; try assumption.
      * discriminate.
      * simpl. rewrite Hc. exact Hrun.
    + exists [c], s. repeat split; try assumption.
      * discriminate.
      * simpl. rewrite Hc. reflexivity.
  - intros [run [rest [-> [Hne [Hrun Hk]]]]].
    induction run as [| c run IH]; [contradiction |].
    simpl in Hrun. apply andb_true_iff in Hrun. destruct Hrun as [Hc Hrun].
    simpl. rewrite Hc. simpl. apply orb_true_iff.
    destruct run as [| d run]; [right; exact Hk |].
    left. apply IH; [discriminate | exact Hrun].
Qed.

Lemma lit_spec (c : N) (rest : list Re.atom) (s : str) :
  Re.match_prefix (Re.Lit c :: rest) s = true
  <-> exists s', s = c :: s' /\ Re.match_prefix rest s' = true.
Proof.
  simpl. destruct s as [| d s'].
  - split; [discriminate | intros [s' [H _]]; discriminate].
  - rewrite andb_true_iff, N.eqb_eq. split.
    + intros [-> H]. exists s'. split; [reflexivity | exact H].
    + intros [s'' [H Hm]]. inversion H; subst. split; [reflexivity | exact Hm].
Qed.

Lemma opt_spec (c : N) (rest : list Re.atom) (s : str) :
  Re.match_prefix (Re.Opt c :: rest) s = true
  <-> Re.match_prefix rest s = true
      \/ exists s', s = c :: s' /\ Re.match_prefix rest s' = true.
Proof.
  simpl. destruct s as [| d s'].
  - split; [intro H; left; exact H |].
    intros [H | [s' [H _]]]; [exact H | discriminate].
  - rewrite orb_true_iff, andb_true_iff, N.eqb_eq. split.
    + intros [[-> H] | H]; [right; exists s'; split; auto | left; exact H].
    + intros [H | [s'' [H Hm]]]; [right; exact H |].
      inversion H; subst. left. split; [reflexivity | exact Hm].
Qed.

(** What the pattern of [charinfo] matches. *)
Lemma emoji_pattern_spec (word digit : N -> bool) (s : str) :
  Re.match_prefix (Charinfo.emoji_pattern word digit) s = true
  <-> starts_with_emoji word digit s.
Proof.
  unfold Charinfo.emoji_pattern, starts_with_emoji.
  set (tail := [Re.Lit 58; Re.Plus word; Re.Lit 58; Re.Plus digit;
                Re.Lit 62]%N).
  assert (Htail : forall t,
             Re.match_prefix tail t = true
             <-> exists name id rest,
                   t = ([58%N] ++ name ++ [58%N] ++ id ++ [62%N] ++ rest)%list
                   /\ name <> [] /\ forallb word name = true
                   /\ id <> [] /\ forallb digit id = true).
  { intro t. unfold tail. rewrite lit_spec. split.
    - intros [t1 [-> H]]. change (Re.plus word (Re.match_prefix
        [Re.Lit 58; Re.Plus digit; Re.Lit 62]%N) t1 = true) in H.
      apply plus_spec in H. destruct H as [name [t2 [-> [Hn [Hw H]]]]].
      apply lit_spec in H. destruct H as [t3 [-> H]].
      change (Re.plus digit (Re.match_prefix [Re.Lit 62%N]) t3 = true) in H.
      apply plus_spec in H. destruct H as [id [t4 [-> [Hi [Hd H]]]]].
      apply lit_spec in H. destruct H as [rest [-> _]].
      exists name, id, rest. repeat split; assumption.
    - intros [name [id [rest [-> [Hn [Hw [Hi Hd]]]]]]].
      eexists. split; [reflexivity |].
      change (Re.plus word (Re.match_prefix
        [Re.Lit 58; Re.Plus digit; Re.Lit 62]%N)
        (name ++ [58%N] ++ id ++ [62%N] ++ rest) = true).
      apply plus_spec. exists name, ([58%N] ++ id ++ [62%N] ++ rest)%list.
      split; [reflexivity |]. split; [exact Hn |]. split; [exact Hw |].
      apply lit_spec. eexists. split; [reflexivity |].
      change (Re.plus digit (Re.match_prefix [Re.Lit 62%N])
                      (id ++ [62%N] ++ rest) = true).
      apply plus_spec. exists id, ([62%N] ++ rest)%list.
      split; [reflexivity |]. split; [exact Hi |]. split; [exact Hd |].
      reflexivity. }
  rewrite lit_spec. split.
  - intros [s1 [-> H]]. apply opt_spec in H.
    destruct H as [H | [s2 [-> H]]]; apply Htail in H;
      destruct H as [name [id [rest [-> [Hn [Hw [Hi Hd]]]]]]].
    + exists [], name, id, rest. repeat split; auto.
    + exists [97%N], name, id, rest. repeat split; auto.
  - intros [a [name [id [rest [-> [Ha [Hn [Hw [Hi Hd]]]]]]]]].
    eexists. split; [reflexivity |]. apply opt_spec.
    destruct Ha as [-> | ->].
    + left. apply Htail. exists name, id, rest. repeat split; auto.
    + right. eexists. split; [reflexivity |].
      apply Htail. exists name, id, rest. repeat split; auto.
Qed.

(** ** [charinfo] *)

Section CharinfoFacts.

Variables word digit : N -> bool.
Variable name : N -> str.
Variable escape_markdown : str -> str.

Lemma emoji_not_empty : ~ starts_with_emoji word digit [].
Proof. intros [a [n [i [r [H _]]]]]. discriminate. Qed.

(** X4.  [charinfo] answers with the "non-character" denial exactly when
    the text begins with the tag of a custom emoji, whatever its length;
    a tag further in the text is not looked for. *)
Theorem charinfo_denies_leading_emoji (characters : str) :
  Charinfo.charinfo word digit name escape_markdown characters = Charinfo.Denied Charinfo.NonCharacter
  <-> starts_with_emoji word digit characters.
Proof.
  rewrite <- emoji_pattern_spec. unfold Charinfo.charinfo.
  destruct (Re.match_prefix (Charinfo.emoji_pattern word digit) characters).
  - split; reflexivity.
  - split; [| discriminate].
    destruct (len characters >? 50); [discriminate |].
    destruct characters; discriminate.
Qed.

(** X5.  When [charinfo] lists characters, there are between 1 and 50 of
    them, one line each and in order, and the field of the raw text is
    there exactly when there are at least two; a longer text that has no
    leading emoji is denied with its length. *)
Theorem charinfo_lists_up_to_50 (characters : str) :
  match Charinfo.charinfo word digit name escape_markdown characters with
  | Charinfo.Paginated char_list full_raw_text =>
      1 <= len characters <= 50
      /\ char_list = map (fun c => fst (Charinfo.get_info name escape_markdown c)) characters
      /\ (full_raw_text = None <-> len characters = 1)
  | Charinfo.Denied (Charinfo.TooMany n) =>
      n = len characters /\ 50 < n
      /\ ~ starts_with_emoji word digit characters
  | Charinfo.Denied Charinfo.NonCharacter =>
      starts_with_emoji word digit characters
  | Charinfo.ValueError => characters = []
  end.
Proof.
  unfold Charinfo.charinfo.
  destruct (Re.match_prefix (Charinfo.emoji_pattern word digit) characters)
    eqn:Hm.
  - apply emoji_pattern_spec. exact Hm.
  - assert (Hno : ~ starts_with_emoji word digit characters)
      by (rewrite <- emoji_pattern_spec; congruence).
    destruct (Z.gtb_spec (len characters) 50) as [Hlong | Hshort].
    + repeat split; [lia | exact Hno].
    + destruct characters as [| c rest] eqn:Hc; [reflexivity |].
      rewrite <- Hc in *.
      assert (Hlen : 1 <= len characters)
        by (rewrite Hc; unfold len; simpl; lia).
      split; [lia |]. split; [rewrite map_map; reflexivity |].
      destruct (Z.gtb_spec (len characters) 1) as [Hgt | Hle];
        split; intro Hraw; try discriminate; try reflexivity; lia.
Qed.

Lemma u_code_cases (char : N) :
  code_point char ->
  if (char <? 65536)%N
  then snd (Charinfo.get_info name escape_markdown char) = (lit "\u" ++ rjust 4 48%N (hex char))%list
       /\ List.length (snd (Charinfo.get_info name escape_markdown char)) = 6%nat
  else snd (Charinfo.get_info name escape_markdown char) = (lit "\U" ++ rjust 8 48%N (hex char))%list
       /\ List.length (snd (Charinfo.get_info name escape_markdown char)) = 10%nat.
Proof.
  unfold code_point. intro Hc.
  assert (H8 : (List.length (hex char) <= 8)%nat).
  { apply hex_length; [lia |].
    change (16 ^ N.of_nat 8)%N with 4294967296%N. lia. }
  pose proof (hex_nonempty char) as H1.
  unfold Charinfo.get_info. cbn [snd].
  destruct (N.ltb_spec char 65536) as [Hlt | Hge].
  - assert (H4 : (List.length (hex char) <= 4)%nat).
    { apply hex_length; [lia |].
      change (16 ^ N.of_nat 4)%N with 65536%N. lia. }
    destruct (Nat.leb_spec (List.length (hex char)) 4); [| lia].
    split; [reflexivity |].
    rewrite length_app, rjust_length.
    change (List.length (lit "\u")) with 2%nat. lia.
  - assert (H5 : ~ (List.length (hex char) <= 4)%nat).
    { intro H. apply hex_length in H; [| lia].
      change (16 ^ N.of_nat 4)%N with 65536%N in H. lia. }
    destruct (Nat.leb_spec (List.length (hex char)) 4); [lia |].
    split; [reflexivity |].
    rewrite length_app, rjust_length.
    change (List.length (lit "\U")) with 2%nat. lia.
Qed.

(** X6.  The escape code of a code point is "\u" and 4 hexadecimal
    digits below U+10000, "\U" and 8 digits from there on; padded to the
    column of the list it takes 10 characters either way. *)
Theorem u_code_shape (char : N) :
  code_point char ->
  let u_code := snd (Charinfo.get_info name escape_markdown char) in
  (if (char <? 65536)%N
   then u_code = (lit "\u" ++ rjust 4 48%N (hex char))%list
        /\ List.length u_code = 6%nat
   else u_code = (lit "\U" ++ rjust 8 48%N (hex char))%list
        /\ List.length u_code = 10%nat)
  /\ List.length (ljust 10 u_code) = 10%nat.
Proof.
  intros Hc u_code. pose proof (u_code_cases char Hc) as Hu.
  fold u_code in Hu. split; [exact Hu |].
  rewrite ljust_length.
  destruct (char <? 65536)%N; destruct Hu as [_ ->]; reflexivity.
Qed.

(** X7.  The escape code can be read back: the digits after its two
    characters of prefix are the code point in hexadecimal, so different
    code points never get the same code. *)
Theorem u_code_round_trip (char : N) :
  of_hex (skipn 2 (snd (Charinfo.get_info name escape_markdown char))) = char
  /\ forall other, snd (Charinfo.get_info name escape_markdown other) = snd (Charinfo.get_info name escape_markdown char) -> other = char.
Proof.
  assert (Hread : forall c, of_hex (skipn 2 (snd (Charinfo.get_info name escape_markdown c))) = c).
  { intro c. unfold Charinfo.get_info. cbn [snd].
    destruct (List.length (hex c) <=? 4)%nat; simpl skipn;
      unfold rjust; rewrite of_hex_zeros; apply of_hex_hex. }
  split; [apply Hread |].
  intros other H. rewrite <- (Hread other), H. apply Hread.
Qed.

Lemma join_empty_length (items : list str) (bound : nat) :
  (forall s, In s items -> (List.length s <= bound)%nat) ->
  (List.length (join [] items) <= bound * List.length items)%nat.
Proof.
  induction items as [| x rest IH]; intro H; [simpl; lia |].
  assert (Hx : (List.length x <= bound)%nat) by (apply H; left; reflexivity).
  assert (Hrest : (List.length (join [] rest) <= bound * List.length rest)%nat)
    by (apply IH; intros s Hs; apply H; right; exact Hs).
  cbn [join]. destruct rest as [| y rest'].
  - simpl. lia.
  - rewrite length_app. cbn [app List.length] in *. lia.
Qed.

(** X8.  The field of the raw text, backticks included, is never longer
    than 502 characters, under the 1024 a field may hold. *)
Theorem full_raw_text_at_most_502 (characters : str)
        (char_list : list str) (raw : str) :
  Forall code_point characters ->
  Charinfo.charinfo word digit name escape_markdown characters = Charinfo.Paginated char_list (Some raw) ->
  (List.length raw <= 502)%nat.
Proof.
  intros Hvalid Hrun.
  unfold Charinfo.charinfo in Hrun.
  destruct (Re.match_prefix _ characters); [discriminate |].
  destruct (Z.gtb_spec (len characters) 50) as [| Hlen]; [discriminate |].
  destruct characters as [| c rest] eqn:Hc; [discriminate |].
  rewrite <- Hc in *.
  destruct (len characters >? 1); [| discriminate].
  inversion Hrun; subst raw; clear Hrun.
  cbn [List.length]. rewrite length_app.
  change (List.length (lit "`")) with 1%nat.
  assert (Hj : (List.length
                  (join [] (map snd (map (Charinfo.get_info name escape_markdown) characters)))
                <= 10 * List.length (map snd (map (Charinfo.get_info name escape_markdown) characters)))%nat).
  { apply join_empty_length. intros s Hs.
    rewrite map_map in Hs. apply in_map_iff in Hs.
    destruct Hs as [d [<- Hd]].
    rewrite Forall_forall in Hvalid.
    pose proof (u_code_cases d (Hvalid d Hd)) as Hshape.
    destruct (d <? 65536)%N; destruct Hshape as [_ Hl]; lia. }
  rewrite !length_map in Hj. unfold len in Hlen. lia.
Qed.

End CharinfoFacts.

(** ** [snowflake] *)

(** X9.  [snowflake] refuses its arguments exactly when the list of
    snowflakes is empty; otherwise the author of the embed is "Snowflake"
    for exactly one snowflake and "Snowflakes" for more, and there is one
    entry per snowflake. *)
Theorem snowflake_plural (datetime : Type) (snowflake_time : Z -> datetime)
        (str_of_datetime time_since : datetime -> str)
        (str_of_int : Z -> str) (snowflakes : list Z) :
  (Snowflakes.snowflake datetime snowflake_time str_of_datetime
                        time_since str_of_int snowflakes
   = Snowflakes.NoSnowflake
   <-> snowflakes = [])
  /\ match Snowflakes.snowflake datetime snowflake_time str_of_datetime
                                time_since str_of_int snowflakes with
     | Snowflakes.NoSnowflake => snowflakes = []
     | Snowflakes.Paginated author_name lines =>
         author_name
         = (if (List.length snowflakes =? 1)%nat
            then lit "Snowflake" else lit "Snowflakes")
         /\ List.length lines = List.length snowflakes
     end.
Proof.
  destruct snowflakes as [| x [| y rest]].
  - split; [split; reflexivity | reflexivity].
  - split; [split; discriminate | split; reflexivity].
  - unfold Snowflakes.snowflake.
    split; [split; discriminate |]. split; [| apply length_map].
    set (n := N.of_nat (List.length (x :: y :: rest))).
    assert (Hn : N.lxor n 1 <> 0%N).
    { intro H. apply N.lxor_eq in H. unfold n in H. simpl List.length in H. lia. }
    destruct (N.to_nat (N.lxor n 1)) as [| k] eqn:Hk; [lia |].
    destruct k; reflexivity.
Qed.

(** ** [vote] *)

Lemma text_eqb_eq (s t : str) : eqb s t = true <-> s = t.
Proof.
  revert t. induction s as [| c s IH]; intros [| d t]; simpl;
    try (split; [discriminate | discriminate]); [split; reflexivity |].
  rewrite andb_true_iff, N.eqb_eq, IH. split.
  - intros [-> ->]. reflexivity.
  - intro H. inversion H. split; reflexivity.
Qed.

Lemma dict_set_fresh (d : Vote.dict) (key value : str) :
  (forall k v, In (k, v) d -> k <> key) ->
  Vote.dict_set d key value = (d ++ [(key, value)])%list.
Proof.
  induction d as [| [k v] d IH]; intro Hfresh; simpl; [reflexivity |].
  destruct (eqb k key) eqn:E.
  - apply text_eqb_eq in E. exfalso.
    apply (Hfresh k v); [left; reflexivity | exact E].
  - rewrite IH; [reflexivity |].
    intros k' v' Hin. apply (Hfresh k' v'). right. exact Hin.
Qed.

(** No key is set twice: the comprehension appends its entries. *)
Lemma comprehension_entries (options : list str) :
  forall i d,
    keys_below i d ->
    Vote.comprehension i options d = (d ++ entries i options)%list.
Proof.
  induction options as [| v options IH]; intros i d Hd; simpl.
  - rewrite app_nil_r. reflexivity.
  - rewrite dict_set_fresh.
    + rewrite IH; [rewrite <- app_assoc; reflexivity |].
      intros k w Hin. apply in_app_or in Hin.
      destruct Hin as [Hin | [Heq | []]].
      * destruct (Hd k w Hin) as [j [-> Hj]]. exists j. split; [reflexivity | lia].
      * inversion Heq; subst. exists i. split; [reflexivity | lia].
    + intros k w Hin Heq. destruct (Hd k w Hin) as [j [-> Hj]].
      inversion Heq. lia.
Qed.

Lemma entries_keys (options : list str) :
  forall i,
    Vote.keys (entries i options)
    = map (fun k => [(i + N.of_nat k)%N]) (seq 0 (List.length options)).
Proof.
  induction options as [| v options IH]; intro i; [reflexivity |].
  cbn [entries Vote.keys map List.length seq fst].
  f_equal; [f_equal; lia |].
  fold (Vote.keys (entries (i + 1) options)). rewrite IH.
  rewrite <- seq_shift, map_map. apply map_ext. intro k. f_equal. lia.
Qed.

Lemma entries_values_from (options : list str) (i : N) :
  forall start,
    Vote.values (entries (i + N.of_nat start) options)
    = map (fun p => ([(i + N.of_nat (fst p))%N] ++ lit " - " ++ snd p)%list)
          (combine (seq start (List.length options)) options).
Proof.
  induction options as [| v options IH]; intro start; [reflexivity |].
  cbn [entries Vote.values map List.length seq snd combine fst].
  f_equal.
  fold (Vote.values (entries (i + N.of_nat start + 1) options)).
  replace (i + N.of_nat start + 1)%N with (i + N.of_nat (S start))%N by lia.
  apply IH.
Qed.

Lemma entries_values (options : list str) (i : N) :
  Vote.values (entries i options)
  = map (fun p => ([(i + N.of_nat (fst p))%N] ++ lit " - " ++ snd p)%list)
        (combine (seq 0 (List.length options)) options).
Proof.
  rewrite <- entries_values_from. simpl. rewrite N.add_0_r. reflexivity.
Qed.

Lemma singleton_eq (a b : N) : [a] = [b] -> a = b.
Proof. intro H. injection H as H. exact H. Qed.

Lemma NoDup_map_injective {A B : Type} (f : A -> B) (l : list A) :
  (forall x y, f x = f y -> x = y) -> NoDup l -> NoDup (map f l).
Proof.
  intros Hinj Hl. induction Hl as [| x l Hx Hl IH]; simpl; constructor.
  - intro Hin. apply in_map_iff in Hin. destruct Hin as [y [Hy Hyl]].
    apply Hinj in Hy. subst y. exact (Hx Hyl).
  - exact IH.
Qed.

(** X10.  A poll that [vote] sends has a title of at most 256 characters
    and between 2 and 20 options; one reaction is added per option, in
    order, the regional indicators from A on, all different and none past
    the twentieth letter; the description is one entry per option, each
    the indicator, " - " and the option, separated by line feeds. *)
Theorem vote_poll (title : str) (options : list str) (poll : Vote.Poll) :
  Vote.vote title options = inr poll ->
  len title <= 256
  /\ (2 <= List.length options <= 20)%nat
  /\ Vote.poll_title poll = title
  /\ Vote.reactions poll
     = map (fun k => [(Vote.codepoint_start + N.of_nat k)%N])
           (seq 0 (List.length options))
  /\ NoDup (Vote.reactions poll)
  /\ (forall r, In r (Vote.reactions poll) ->
                exists c, r = [c] /\ (127462 <= c <= 127481)%N)
  /\ Vote.poll_description poll
     = join [10%N]
            (map (fun p => ([(Vote.codepoint_start + N.of_nat (fst p))%N]
                            ++ lit " - " ++ snd p)%list)
                 (combine (seq 0 (List.length options)) options)).
Proof.
  unfold Vote.vote.
  destruct (Z.gtb_spec (len title) 256) as [| Ht]; [discriminate |].
  destruct (Z.ltb_spec (Z.of_nat (List.length options)) 2) as [| Hlo];
    [discriminate |].
  destruct (Z.gtb_spec (Z.of_nat (List.length options)) 20) as [| Hhi];
    [discriminate |].
  intro H. inversion H; subst poll; clear H. cbn [Vote.poll_title
    Vote.reactions Vote.poll_description].
  rewrite comprehension_entries by (intros k v []).
  cbn [app]. rewrite entries_keys, entries_values.
  split; [exact Ht |]. split; [lia |]. split; [reflexivity |].
  split; [reflexivity |]. split; [| split; [| reflexivity]].
  - apply NoDup_map_injective; [| apply seq_NoDup].
    intros j k Hjk. apply singleton_eq in Hjk.
    apply N.add_cancel_l in Hjk. lia.
  - intros r Hr. apply in_map_iff in Hr. destruct Hr as [k [<- Hk]].
    apply in_seq in Hk. eexists. split; [reflexivity |].
    unfold Vote.codepoint_start. lia.
Qed.

(** ** [unfurl_url] *)

Lemma firstn_is_all (k : nat) (s : str) :
  eqb (firstn k s) s = true <-> (List.length s <= k)%nat.
Proof.
  rewrite text_eqb_eq. split.
  - intro H. apply (f_equal (@List.length N)) in H.
    rewrite length_firstn in H. lia.
  - apply firstn_all2.
Qed.

Lemma shorten_cases (url : str) :
  ((List.length url <= 50)%nat /\ Unfurl.shorten url = url)
  \/ ((50 < List.length url)%nat
      /\ Unfurl.shorten url = (firstn 50 url ++ lit "...")%list).
Proof.
  unfold Unfurl.shorten.
  destruct (eqb (firstn 50 url) url) eqn:E.
  - left. apply firstn_is_all in E. split; [exact E |].
    apply firstn_all2. exact E.
  - right. split; [| reflexivity].
    destruct (Nat.le_gt_cases (List.length url) 50) as [H | H]; [| exact H].
    apply firstn_is_all in H. congruence.
Qed.

Section UnfurlFacts.

Variable staff : bool.
Variable service : str -> Z -> bool -> option Unfurl.UnfurlResult.
Variable paste_service : str -> str.
Variable discord_timestamp : Z -> str.
Variable CACHE_LENGTH : Z.
Variable dev_contrib : str.

(** The destination of a result: shown in backticks when that has at
    most 1024 characters, else pasted and replaced by a notice; the
    alignment field follows a value shorter than 30 characters. *)
Lemma add_destination_cases (embed : Unfurl.Embed)
      (result : Unfurl.UnfurlResult) :
  match Unfurl.destination result with
  | None => Unfurl.add_destination paste_service embed result = ([], embed)
  | Some d =>
      Unfurl.add_destination paste_service embed result
      = if 1022 <? len d
        then ([Unfurl.Paste d],
              Unfurl.add_field embed (lit "Destination")
                (Unfurl.Str (paste_notice (paste_service d))) true)
        else if len d <? 28
        then ([],
              Unfurl.add_field
                (Unfurl.add_field embed (lit "Destination")
                   (Unfurl.Str (lit "`" ++ d ++ lit "`")%list) true)
                [8203%N] (Unfurl.Str [8203%N]) true)
        else ([],
              Unfurl.add_field embed (lit "Destination")
                (Unfurl.Str (lit "`" ++ d ++ lit "`")%list) true)
  end.
Proof.
  unfold Unfurl.add_destination.
  destruct (Unfurl.destination result) as [d |]; [| reflexivity].
  assert (Hlen : len (lit "`" ++ d ++ lit "`") = len d + 2).
  { unfold len. rewrite !length_app.
    change (List.length (lit "`")) with 1%nat. lia. }
  rewrite Hlen.
  destruct (Z.gtb_spec (len d + 2) 1024) as [Hlong | Hshort].
  - destruct (Z.ltb_spec 1022 (len d)) as [_ | H]; [| lia].
    fold (paste_notice (paste_service d)).
    assert (Hn : 30 <= len (paste_notice (paste_service d))).
    { unfold paste_notice, len. rewrite !length_app.
      change (List.length
                (lit "Result was too long to display, you can find it [here]("))
        with 55%nat. lia. }
    destruct (Z.ltb_spec (len (paste_notice (paste_service d))) 30);
      [lia | reflexivity].
  - destruct (Z.ltb_spec 1022 (len d)) as [H | _]; [lia |].
    rewrite Hlen.
    destruct (Z.ltb_spec (len d + 2) 30); destruct (Z.ltb_spec (len d) 28);
      try lia; reflexivity.
Qed.

Lemma add_destination_events (embed : Unfurl.Embed)
      (result : Unfurl.UnfurlResult) :
  fst (Unfurl.add_destination paste_service embed result) = []
  \/ exists d,
       fst (Unfurl.add_destination paste_service embed result)
       = [Unfurl.Paste d].
Proof.
  pose proof (add_destination_cases embed result) as H.
  destruct (Unfurl.destination result) as [d |]; [| rewrite H; left; reflexivity].
  rewrite H. destruct (1022 <? len d); [right; exists d; reflexivity |].
  destruct (len d <? 28); left; reflexivity.
Qed.

(** X11.  The title of the embed is the URL when it has at most 50
    characters, and otherwise its first 50 characters followed by "...";
    in backticks it never has more than 55 characters. *)
Theorem unfurl_title (url : str) (result : Unfurl.UnfurlResult) :
  ((List.length url <= 50)%nat -> Unfurl.shorten url = url)
  /\ ((50 < List.length url)%nat ->
      Unfurl.shorten url = (firstn 50 url ++ lit "...")%list)
  /\ Unfurl.embed_title
       (snd (Unfurl.add_destination
               paste_service
               (Unfurl.embed_of_result discord_timestamp CACHE_LENGTH
                                       url result)
               result))
     = (lit "`" ++ Unfurl.shorten url ++ lit "`")%list
  /\ (List.length (lit "`" ++ Unfurl.shorten url ++ lit "`") <= 55)%nat.
Proof.
  split; [| split; [| split]].
  - intro H. destruct (shorten_cases url) as [[_ E] | [H' _]]; [exact E | lia].
  - intro H. destruct (shorten_cases url) as [[H' _] | [_ E]]; [lia | exact E].
  - pose proof (add_destination_cases
                  (Unfurl.embed_of_result discord_timestamp CACHE_LENGTH
                                          url result) result) as H.
    destruct (Unfurl.destination result) as [d |]; rewrite H;
      [destruct (1022 <? len d); [| destruct (len d <? 28)] |];
      cbn [snd]; unfold Unfurl.embed_of_result;
      destruct (Unfurl.depth result); destruct (Unfurl.error result);
      reflexivity.
  - rewrite !length_app. change (List.length (lit "`")) with 1%nat.
    destruct (shorten_cases url) as [[H ->] | [H ->]]; [lia |].
    rewrite length_app, length_firstn.
    change (List.length (lit "...")) with 3%nat. lia.
Qed.

(** X12.  [unfurl_url] raises exactly when more than 5 continuations are
    asked, or when the cache is to be skipped by someone who is not
    staff; a call that raises neither calls the service nor sends
    anything.  The staff role is looked up only when the cache is to be
    skipped.  A call that does not raise calls the service once, with
    its own arguments, and sends one message, last. *)
Theorem unfurl_refusals (url : str) (max_continues : Z) (use_cache : bool) :
  let run :=
    Unfurl.unfurl_url staff service paste_service discord_timestamp
                      CACHE_LENGTH dev_contrib url max_continues use_cache in
  (snd run = Some Unfurl.TooManyRedirects <-> 5 < max_continues)
  /\ (snd run = Some Unfurl.NoPermission
      <-> max_continues <= 5 /\ use_cache = false /\ staff = false)
  /\ (snd run <> None -> forall ev, In ev (fst run) -> ev = Unfurl.RoleCheck)
  /\ (In Unfurl.RoleCheck (fst run)
      <-> max_continues <= 5 /\ use_cache = false)
  /\ (snd run = None ->
      exists before reply,
        fst run = (before ++ [reply])%list
        /\ is_send reply = true
        /\ forallb (fun ev => negb (is_send ev)) before = true
        /\ service_calls before = [(url, max_continues, use_cache)]).
Proof.
  intro run. unfold run, Unfurl.unfurl_url.
  destruct (Z.gtb_spec max_continues 5) as [Hmany | Hfew].
  { cbn [fst snd].
    split; [split; [intros _; exact Hmany | reflexivity] |].
    split; [split; [discriminate | intros [H _]; lia] |].
    split; [intros _ ev [] |].
    split; [split; [intros [] | intros [H _]; lia] |].
    discriminate. }
  destruct use_cache, staff; cbn [negb andb fst snd app].
  4: { split; [split; [discriminate | lia] |].
       split; [split; [intros _; repeat split; assumption | reflexivity] |].
       split; [intros _ ev [<- | []]; reflexivity |].
       split; [split; [intros _; split; [exact Hfew | reflexivity]
                      | intros _; left; reflexivity] |].
       discriminate. }
  all: destruct (service url max_continues _) as [result |];
    [pose proof (add_destination_events
                   (Unfurl.embed_of_result discord_timestamp CACHE_LENGTH
                                           url result) result) as Hev;
     destruct (Unfurl.add_destination paste_service _ result)
       as [pasted embed]; cbn [fst] in Hev;
     destruct Hev as [-> | [d ->]] |];
    cbn [fst snd app];
    (split; [split; [discriminate | lia] |]);
    (split; [split; [discriminate | intros [_ [H1 H2]]; congruence] |]);
    (split; [intro H; exfalso; apply H; reflexivity |]);
    (split;
     [split;
      [intro H; split; [exact Hfew |];
       repeat (destruct H as [H | H]; try discriminate H);
       try contradiction; reflexivity
      | intros [_ H]; try discriminate H; left; reflexivity] |]);
    intros _.
  all: match goal with
       | |- exists before reply, ?l = _ /\ _ =>
           exists (removelast l), (last l Unfurl.RoleCheck)
       end;
    (split; [apply app_removelast_last; discriminate |]);
    cbn; repeat split.
Qed.

(** X13.  A destination is shown in backticks when it has at most 1022
    characters, and the field then holds at most 1024; a longer one is
    sent to the paste service and the field holds the notice instead.
    The alignment field follows exactly when the destination has fewer
    than 28 characters, so never after a notice. *)
Theorem unfurl_destination (embed : Unfurl.Embed)
        (result : Unfurl.UnfurlResult) (d : str) :
  Unfurl.destination result = Some d ->
  exists shown,
    Unfurl.add_destination paste_service embed result
    = (if 1022 <? len d then [Unfurl.Paste d] else [],
       {| Unfurl.embed_title := Unfurl.embed_title embed;
          Unfurl.embed_colour := Unfurl.embed_colour embed;
          Unfurl.fields :=
            (Unfurl.fields embed
             ++ {| Unfurl.field_name := lit "Destination";
                   Unfurl.field_value_of := Unfurl.Str shown;
                   Unfurl.inline := true |}
             :: (if len d <? 28 then [alignment_field] else []))%list |})
    /\ (if 1022 <? len d
        then shown = paste_notice (paste_service d)
        else shown = (lit "`" ++ d ++ lit "`")%list /\ len shown <= 1024).
Proof.
  intro Hd. pose proof (add_destination_cases embed result) as H.
  rewrite Hd in H. rewrite H.
  assert (Hlen : len (lit "`" ++ d ++ lit "`") = len d + 2).
  { unfold len. rewrite !length_app.
    change (List.length (lit "`")) with 1%nat. lia. }
  destruct (Z.ltb_spec 1022 (len d)) as [Hlong | Hshort].
  - exists (paste_notice (paste_service d)). split; [| reflexivity].
    destruct (Z.ltb_spec (len d) 28); [lia |].
    unfold Unfurl.add_field. cbn [Unfurl.fields Unfurl.embed_title
      Unfurl.embed_colour]. reflexivity.
  - exists (lit "`" ++ d ++ lit "`")%list. split; [| split; [reflexivity | lia]].
    destruct (len d <? 28); unfold Unfurl.add_field, alignment_field;
      cbn [Unfurl.fields Unfurl.embed_title Unfurl.embed_colour];
      rewrite <- ?app_assoc; reflexivity.
Qed.

(** X14.  The embed is green exactly when the result has no error, and
    then it has one field "Fetched" and one field "Expiry", the latter
    for the time of creation plus the length of the cache, and no field
    "Error"; it is red when there is an error, which it shows in one
    field "Error" that is not inline, without "Fetched" or "Expiry".
    It never has more than 5 fields. *)
Theorem unfurl_colour_and_fields (url : str) (result : Unfurl.UnfurlResult) :
  let embed :=
    snd (Unfurl.add_destination
           paste_service
           (Unfurl.embed_of_result discord_timestamp CACHE_LENGTH url result)
           result) in
  (Unfurl.embed_colour embed = Unfurl.Green <-> Unfurl.error result = None)
  /\ match Unfurl.error result with
     | None =>
         fields_named (lit "Fetched") embed
         = [{| Unfurl.field_name := lit "Fetched";
               Unfurl.field_value_of :=
                 Unfurl.Str (discord_timestamp (Unfurl.created_at result));
               Unfurl.inline := true |}]
         /\ fields_named (lit "Expiry") embed
            = [{| Unfurl.field_name := lit "Expiry";
                  Unfurl.field_value_of :=
                    Unfurl.Str (discord_timestamp
                                  (Unfurl.created_at result + CACHE_LENGTH));
                  Unfurl.inline := true |}]
         /\ fields_named (lit "Error") embed = []
     | Some err =>
         fields_named (lit "Error") embed
         = [{| Unfurl.field_name := lit "Error";
               Unfurl.field_value_of := Unfurl.Str err;
               Unfurl.inline := false |}]
         /\ fields_named (lit "Fetched") embed = []
         /\ fields_named (lit "Expiry") embed = []
     end
  /\ (List.length (Unfurl.fields embed) <= 5)%nat.
Proof.
  intro embed. unfold embed.
  pose proof (add_destination_cases
                (Unfurl.embed_of_result discord_timestamp CACHE_LENGTH
                                        url result) result) as H.
  destruct (Unfurl.destination result) as [d |]; rewrite H;
    [destruct (1022 <? len d); [| destruct (len d <? 28)] |];
    cbn [snd]; unfold Unfurl.embed_of_result;
    destruct (Unfurl.depth result); destruct (Unfurl.error result);
    (split; [split; [intro; try reflexivity; discriminate
                    | intro; try reflexivity; discriminate] |]);
    (split; [repeat split |]); cbn; lia.
Qed.

End UnfurlFacts.

(** ** Examples for the other commands *)

Lemma u_code_shape_witness :
  (snd (Charinfo.get_info no_name no_escape 127462)
   = (lit "\U" ++ rjust 8 48%N (hex 127462))%list
   /\ List.length (snd (Charinfo.get_info no_name no_escape 127462)) = 10%nat)
  /\ List.length (ljust 10 (snd (Charinfo.get_info no_name no_escape 127462)))
     = 10%nat.
Proof.
  apply (u_code_shape no_name no_escape 127462). reflexivity.
Defined.

Lemma full_raw_text_at_most_502_witness :
  (List.length (lit "`\u0041\U0001f1e6`") <= 502)%nat.
Proof.
  apply (full_raw_text_at_most_502
           ascii_word ascii_digit no_name no_escape [65%N; 127462%N]
           (map (fun c => fst (Charinfo.get_info no_name no_escape c))
                [65%N; 127462%N])).
  - repeat constructor.
  - reflexivity.
Defined.

Lemma vote_poll_witness :
  len (lit "Tabs or spaces?") <= 256
  /\ (2 <= List.length [lit "tabs"; lit "spaces"] <= 20)%nat
  /\ lit "Tabs or spaces?" = lit "Tabs or spaces?"
  /\ [[127462%N]; [127463%N]]
     = map (fun k => [(Vote.codepoint_start + N.of_nat k)%N])
           (seq 0 (List.length [lit "tabs"; lit "spaces"]))
  /\ NoDup [[127462%N]; [127463%N]]
  /\ (forall r, In r [[127462%N]; [127463%N]] ->
                exists c, r = [c] /\ (127462 <= c <= 127481)%N)
  /\ (127462%N :: lit " - tabs" ++ 10%N :: 127463%N :: lit " - spaces")%list
     = join [10%N]
            (map (fun p => ([(Vote.codepoint_start + N.of_nat (fst p))%N]
                            ++ lit " - " ++ snd p)%list)
                 (combine (seq 0 (List.length [lit "tabs"; lit "spaces"]))
                          [lit "tabs"; lit "spaces"])).
Proof.
  apply (vote_poll (lit "Tabs or spaces?") [lit "tabs"; lit "spaces"]
                   {| Vote.poll_title := lit "Tabs or spaces?";
                      Vote.poll_description :=
                        (127462%N :: lit " - tabs"
                         ++ 10%N :: 127463%N :: lit " - spaces")%list;
                      Vote.reactions := [[127462%N]; [127463%N]] |}).
  reflexivity.
Defined.

Lemma unfurl_destination_witness :
  exists shown,
    Unfurl.add_destination
      sample_paste
      {| Unfurl.embed_title := lit "`t`"; Unfurl.embed_colour := Unfurl.Green;
         Unfurl.fields := [] |}
      {| Unfurl.error := None; Unfurl.depth := None; Unfurl.created_at := 0;
         Unfurl.destination := Some (lit "https://pythondiscord.com") |}
    = (if 1022 <? len (lit "https://pythondiscord.com")
       then [Unfurl.Paste (lit "https://pythondiscord.com")] else [],
       {| Unfurl.embed_title := lit "`t`";
          Unfurl.embed_colour := Unfurl.Green;
          Unfurl.fields :=
            ([] ++ {| Unfurl.field_name := lit "Destination";
                      Unfurl.field_value_of := Unfurl.Str shown;
                      Unfurl.inline := true |}
             :: (if len (lit "https://pythondiscord.com") <? 28
                 then [alignment_field] else []))%list |})
    /\ (if 1022 <? len (lit "https://pythondiscord.com")
        then shown = paste_notice (sample_paste (lit "https://pythondiscord.com"))
        else shown = (lit "`" ++ lit "https://pythondiscord.com" ++ lit "`")%list
             /\ len shown <= 1024).
Proof.
  apply (unfurl_destination
           sample_paste
           {| Unfurl.embed_title := lit "`t`";
              Unfurl.embed_colour := Unfurl.Green; Unfurl.fields := [] |}
           {| Unfurl.error := None; Unfurl.depth := None;
              Unfurl.created_at := 0;
              Unfurl.destination := Some (lit "https://pythondiscord.com") |}
           (lit "https://pythondiscord.com")).
  reflexivity.
Defined.
